(** * wifi_simulation.cc: campaign driver, flow metrics and CSV sink

    A shallow embedding of [src/wifi_simulation.cc].

    - A [double] is an IEEE-754 binary64 number: the kernel's primitive
      [float], whose operations [FloatAxioms] specifies through [SpecFloat].
    - A [uint64_t] is an integer of [Z], reduced modulo [2^64] where the
      program accumulates it.
    - The ns-3 engine (topology, PHY/MAC, TCP, flow monitor) is external: a
      run of it is an [EngineRun], the values the program reads back.
    - The file at [csvPath] is an [option string]: [None] when it cannot be
      opened for reading, [Some text] otherwise.  Opening it for writing is
      taken to succeed. *)

From Stdlib Require Import ZArith List Bool Lia Floats String Ascii.
From Stdlib Require Import DecimalString Permutation Sorted.
Import ListNotations.

Local Open Scope Z_scope.

(* ================================================================= *)
(** ** Machine numbers *)

Module Machine.

Definition two64 : Z := 2 ^ 64.

(** Arithmetic on [uint64_t] wraps around. *)
Definition wrap64 (n : Z) : Z := n mod two64.

Definition uint64_add (a b : Z) : Z := wrap64 (a + b).

(** The conversion [uint64_t -> double] (implicit in [totalRx * 8.0] and
    [sumDelaySec / rxPackets], explicit in [(double)lostPackets]): the
    nearest binary64 number, ties to even. *)
Definition double_of_uint64 (n : Z) : float :=
  SF2Prim (binary_normalize prec emax n 0 false).

(** The conversion [uint32_t -> double] in [0.1 * i]. *)
Definition double_of_uint32 (n : Z) : float := double_of_uint64 n.

End Machine.
Import Machine.

(* ================================================================= *)
(** ** Text output: [std::fixed << std::setprecision(2)] *)

Module Fmt.

Local Open Scope string_scope.

Definition newline_char : ascii := ascii_of_nat 10.
Definition comma_char : ascii := ascii_of_nat 44.

Definition newline : string := String newline_char "".
Definition comma : string := String comma_char "".

(** Decimal digits of a natural number, no leading zero, ["0"] for zero. *)
Definition dec (n : Z) : string := NilZero.string_of_uint (N.to_uint (Z.to_N n)).

(** Last decimal digit. *)
Definition digit (n : Z) : string := dec (n mod 10).

(** [round_half_even num den]: the integer nearest to [num / den]
    ([0 <= num], [0 < den]), a tie going to the even one. *)
Definition round_half_even (num den : Z) : Z :=
  let q := num / den in
  let r := num mod den in
  match 2 * r ?= den with
  | Lt => q
  | Gt => q + 1
  | Eq => if Z.even q then q else q + 1
  end.

(** The magnitude [m * 2^e] in hundredths, rounded to nearest even. *)
Definition hundredths (m : positive) (e : Z) : Z :=
  match e with
  | Zneg p => round_half_even (Zpos m * 100) (2 ^ Zpos p)
  | _ => Zpos m * 2 ^ e * 100
  end.

Definition sign_text (s : bool) : string := if s then "-" else "".

Definition fixed_of_hundredths (s : bool) (h : Z) : string :=
  sign_text s ++ dec (h / 100) ++ "." ++ digit (h / 10) ++ digit h.

(** What [out << std::fixed << std::setprecision(2) << x] writes. *)
Definition fixed2_sf (x : spec_float) : string :=
  match x with
  | S754_nan => "nan"
  | S754_infinity s => sign_text s ++ "inf"
  | S754_zero s => fixed_of_hundredths s 0
  | S754_finite s m e => fixed_of_hundredths s (hundredths m e)
  end.

Definition fixed2 (x : float) : string := fixed2_sf (Prim2SF x).

End Fmt.

(* ================================================================= *)
(** ** The engine boundary *)

(** [ns3::Time], observed through [GetSeconds()]. *)
Record Time := { GetSeconds : float }.

(** [ns3::PacketSink], observed through [GetTotalRx()]. *)
Record PacketSink := { GetTotalRx : Z }.

Module FlowMonitor.

(** [FlowMonitor::FlowStats]: the four fields the program reads. *)
Record FlowStats := {
  delaySum : Time;
  rxPackets : Z;
  txPackets : Z;
  lostPackets : Z
}.

End FlowMonitor.
Import FlowMonitor.

Definition FlowId := Z.

(** What the program reads back after [Simulator::Run()]:
    [DynamicCast<PacketSink>(sinkApp.Get(0))], null or a sink, and
    [monitor->GetFlowStats()], a [std::map] listed in the order the
    range-for loop visits it. *)
Record EngineRun := {
  sink : option PacketSink;
  stats : list (FlowId * FlowStats)
}.

(** A [std::map] is visited in strictly ascending key order. *)
Definition key_lt (a b : FlowId * FlowStats) : Prop := fst a < fst b.

Definition is_std_map (m : list (FlowId * FlowStats)) : Prop :=
  StronglySorted key_lt m.

(* ================================================================= *)
(** ** Topology and traffic configuration *)

Record BulkSend := {
  station : Z;
  MaxBytes : Z;
  SendSize : Z;
  startTime : float;
  stopTime : float
}.

(** [for (uint32_t i = 0; i < wifiStaNodes.GetN(); ++i)]: the senders of
    stations [i, i+1, ...], [n] of them.  The literal [0.1] is the
    binary64 number [0x1.999999999999ap-4]. *)
Fixpoint senders_from (appStart appStop : float) (i : Z) (n : nat) : list BulkSend :=
  match n with
  | O => []
  | S n' =>
      {| station := i; MaxBytes := 0; SendSize := 1448;
         startTime := (appStart + 0x1.999999999999ap-4 * double_of_uint32 i)%float;
         stopTime := appStop |}
      :: senders_from appStart appStop (i + 1) n'
  end.

Definition senders (appStart appStop : float) (stationCount : nat) : list BulkSend :=
  senders_from appStart appStop 0 stationCount.

Record Vector := { vx : float; vy : float; vz : float }.

Record Config := {
  apPos : list Vector;
  staPos : list Vector;
  staNodes : nat;
  port : Z;
  traffic : list BulkSend;
  simStopAt : float
}.

Definition configure (d appStart appStop simStop : float) (stationCount : nat) : Config :=
  {| apPos := [ {| vx := 0; vy := 0; vz := 0 |} ];
     staPos := [ {| vx := d; vy := 0; vz := 0 |};
                 {| vx := d; vy := 3; vz := 0 |};
                 {| vx := d; vy := (-3)%float; vz := 0 |} ];
     staNodes := stationCount;
     port := 5000;
     traffic := senders appStart appStop stationCount;
     simStopAt := simStop |}.

(* ================================================================= *)
(** ** Metrics *)

(** [totalRx]: initialised to [0], overwritten only if the cast gave a sink. *)
Definition totalRx_of (s : option PacketSink) : Z :=
  match s with
  | Some p => wrap64 (GetTotalRx p)
  | None => 0
  end.

(** [(totalRx * 8.0) / (duration * 1e6)], [duration = appStop - appStart]. *)
Definition throughputMbps (totalRx : Z) (appStart appStop : float) : float :=
  let duration := (appStop - appStart)%float in
  ((double_of_uint64 totalRx * 8) / (duration * 1e6))%float.

(** The accumulators of the loop over the flow statistics:
    [sumDelaySec], [rxPackets], [txPackets], [lostPackets]. *)
Record Totals := {
  sumDelaySec : float;
  rxTotal : Z;
  txTotal : Z;
  lostTotal : Z
}.

Definition totals0 : Totals :=
  {| sumDelaySec := 0; rxTotal := 0; txTotal := 0; lostTotal := 0 |}.

(** One iteration of [for (const auto &kv : stats)]. *)
Definition accumulate (acc : Totals) (kv : FlowId * FlowStats) : Totals :=
  let st := snd kv in
  {| sumDelaySec := (sumDelaySec acc + GetSeconds (delaySum st))%float;
     rxTotal := uint64_add (rxTotal acc) (rxPackets st);
     txTotal := uint64_add (txTotal acc) (txPackets st);
     lostTotal := uint64_add (lostTotal acc) (lostPackets st) |}.

Definition flow_totals (m : list (FlowId * FlowStats)) : Totals :=
  fold_left accumulate m totals0.

(** [(rxPackets > 0) ? (sumDelaySec / rxPackets * 1000.0) : 0.0] *)
Definition avgDelayMs (t : Totals) : float :=
  if 0 <? rxTotal t
  then (sumDelaySec t / double_of_uint64 (rxTotal t) * 1000)%float
  else 0%float.

(** [(txPackets > 0) ? (100.0 * (double)lostPackets / (double)txPackets) : 0.0] *)
Definition lossPct (t : Totals) : float :=
  if 0 <? txTotal t
  then (100 * double_of_uint64 (lostTotal t) / double_of_uint64 (txTotal t))%float
  else 0%float.

(** The same three expressions with every division checked: [None] as
    soon as a divisor is a zero. *)
Module Checked.

Definition fdiv (x y : float) : option float :=
  if is_zero y then None else Some (x / y)%float.

Definition throughputMbps (totalRx : Z) (appStart appStop : float) : option float :=
  let duration := (appStop - appStart)%float in
  fdiv (double_of_uint64 totalRx * 8)%float (duration * 1e6)%float.

Definition avgDelayMs (t : Totals) : option float :=
  if 0 <? rxTotal t
  then match fdiv (sumDelaySec t) (double_of_uint64 (rxTotal t)) with
       | Some q => Some (q * 1000)%float
       | None => None
       end
  else Some 0%float.

Definition lossPct (t : Totals) : option float :=
  if 0 <? txTotal t
  then fdiv (100 * double_of_uint64 (lostTotal t))%float (double_of_uint64 (txTotal t))
  else Some 0%float.

End Checked.

(** The four values written for one scenario. *)
Record ScenarioResult := {
  distance : float;
  throughput : float;
  avgDelay : float;
  loss : float
}.

Definition scenario_result (d appStart appStop : float) (run : EngineRun) : ScenarioResult :=
  let totalRx := totalRx_of (sink run) in
  let t := flow_totals (stats run) in
  {| distance := d;
     throughput := throughputMbps totalRx appStart appStop;
     avgDelay := avgDelayMs t;
     loss := lossPct t |}.

(* ================================================================= *)
(** ** The CSV file *)

Module Csv.

Local Open Scope string_scope.

(** The file at [csvPath]. *)
Definition File := option string.

Definition header_line : string :=
  "distance_m,throughput_mbps,avg_delay_ms,packet_loss_percent".

Definition header : string := header_line ++ Fmt.newline.

(** [std::ifstream check(csvPath); check.good()] *)
Definition good (f : File) : bool :=
  match f with Some _ => true | None => false end.

(** [std::ofstream out(csvPath, std::ios_base::out); out << text] *)
Definition write_out (text : string) (f : File) : File := Some text.

(** [std::ofstream out(csvPath, std::ios_base::app); out << text] *)
Definition write_app (text : string) (f : File) : File :=
  match f with
  | Some old => Some (old ++ text)
  | None => Some text
  end.

(** [d << "," << throughputMbps << "," << avgDelayMs << "," << lossPct],
    without the final newline. *)
Definition row_line (r : ScenarioResult) : string :=
  Fmt.fixed2 (distance r) ++ Fmt.comma ++ Fmt.fixed2 (throughput r) ++ Fmt.comma
  ++ Fmt.fixed2 (avgDelay r) ++ Fmt.comma ++ Fmt.fixed2 (loss r).

Definition row (r : ScenarioResult) : string := row_line r ++ Fmt.newline.

Definition text (f : File) : string :=
  match f with Some s => s | None => "" end.

End Csv.

Definition WriteCsvHeaderIfNeeded (f : Csv.File) : Csv.File :=
  let exists_ := Csv.good f in
  if negb exists_ then Csv.write_out Csv.header f else f.

(* ================================================================= *)
(** ** The campaign: [main] *)

Section Campaign.

(** The engine: what run number [i] of this process, configured by [cfg],
    hands back. *)
Variable Simulator_Run : nat -> Config -> EngineRun.

Variables appStart appStop simStop : float.
Variable stationCount : nat.

(** What the [i]-th iteration of [for (double d : distances)] computes. *)
Definition scenario_row (i : nat) (d : float) : ScenarioResult :=
  scenario_result d appStart appStop
    (Simulator_Run i (configure d appStart appStop simStop stationCount)).

(** The [i]-th iteration, on the file. *)
Definition scenario (i : nat) (d : float) (f : Csv.File) : Csv.File :=
  Csv.write_app (Csv.row (scenario_row i d)) f.

Fixpoint scenarios (i : nat) (ds : list float) (f : Csv.File) : Csv.File :=
  match ds with
  | [] => f
  | d :: rest => scenarios (S i) rest (scenario i d f)
  end.

Definition campaign (ds : list float) (f : Csv.File) : Csv.File :=
  scenarios 0 ds (WriteCsvHeaderIfNeeded f).

End Campaign.

Definition distances : list float := [5; 10; 20; 35; 50]%float.

(** [wifiStaNodes.Create(3)] *)
Definition stations : nat := 3.

(** [main]: the file afterwards, and the exit code. *)
Definition main (Simulator_Run : nat -> Config -> EngineRun) (f : Csv.File) : Csv.File * Z :=
  (campaign Simulator_Run 1 10 12 stations distances f, 0).

(* ================================================================= *)
(** ** Vocabulary of the specification *)

(** Exact sum of one counter over the flow records. *)
Definition total (field : FlowStats -> Z) (m : list (FlowId * FlowStats)) : Z :=
  fold_right (fun kv acc => field (snd kv) + acc) 0 m.

(** Sum of the delays, in [double] arithmetic, in the order visited. *)
Definition delay_sum (m : list (FlowId * FlowStats)) : float :=
  fold_left (fun acc kv => (acc + GetSeconds (delaySum (snd kv)))%float) m 0%float.

(** The rows a campaign computes, in order. *)
Fixpoint results (Simulator_Run : nat -> Config -> EngineRun)
    (appStart appStop simStop : float) (stationCount : nat)
    (i : nat) (ds : list float) : list ScenarioResult :=
  match ds with
  | [] => []
  | d :: rest =>
      scenario_row Simulator_Run appStart appStop simStop stationCount i d
      :: results Simulator_Run appStart appStop simStop stationCount (S i) rest
  end.

Module Text.

Local Open Scope string_scope.

(** The pieces of [s] that the separator [sep] ends, and what is left. *)
Fixpoint pieces (sep : ascii) (s : string) : list string :=
  match s with
  | EmptyString => []
  | String c s' =>
      if Ascii.eqb c sep then EmptyString :: pieces sep s'
      else match pieces sep s' with
           | [] => [String c EmptyString]
           | p :: ps => String c p :: ps
           end
  end.

Definition lines (s : string) : list string := pieces Fmt.newline_char s.
Definition fields (s : string) : list string := pieces Fmt.comma_char s.

Fixpoint all_chars (p : ascii -> bool) (s : string) : bool :=
  match s with
  | EmptyString => true
  | String c s' => p c && all_chars p s'
  end.

Definition is_digit (c : ascii) : bool :=
  let n := nat_of_ascii c in ((48 <=? n)%nat && (n <=? 57)%nat)%bool.

(** The characters [fixed2] writes: digits, [-], [.], and those of
    [inf] and [nan]. *)
Definition is_number_char (c : ascii) : bool :=
  is_digit c || existsb (Ascii.eqb c) ["-"; "."; "i"; "n"; "f"; "a"]%char.

(** ["." digit digit] and nothing more. *)
Definition point_two (s : string) : bool :=
  match s with
  | String p (String d1 (String d2 EmptyString)) =>
      Ascii.eqb p "." && is_digit d1 && is_digit d2
  | _ => false
  end.

(** One or more digits, then ["." digit digit]. *)
Fixpoint unsigned_two_decimals (s : string) : bool :=
  match s with
  | EmptyString => false
  | String c s' => is_digit c && (point_two s' || unsigned_two_decimals s')
  end.

(** A decimal numeral with exactly two fractional digits, with an
    optional sign. *)
Definition two_decimals (s : string) : bool :=
  match s with
  | EmptyString => false
  | String c s' =>
      if Ascii.eqb c "-" then unsigned_two_decimals s' else unsigned_two_decimals s
  end.

(** Concatenation of the texts written one after the other. *)
Definition cat (l : list string) : string := fold_right append EmptyString l.

(** [s] has no character [c]. *)
Definition free (c : ascii) (s : string) : bool :=
  all_chars (fun x => negb (Ascii.eqb x c)) s.

End Text.

(** A [double] that is a number: neither an infinity nor a NaN. *)
Definition is_number (x : float) : bool :=
  match Prim2SF x with
  | S754_zero _ | S754_finite _ _ _ => true
  | _ => false
  end.

(* ================================================================= *)
(** ** Sample engine outputs *)

Module Sample.

Definition flow (seconds : float) (rx tx lost : Z) : FlowStats :=
  {| delaySum := {| GetSeconds := seconds |};
     rxPackets := rx; txPackets := tx; lostPackets := lost |}.

(** Three flows with delay sums of 0.1 s, 0.2 s and 0.3 s (the nearest
    binary64 numbers), one packet each. *)
Definition three_flows : list (FlowId * FlowStats) :=
  [ (1, flow 0x1.999999999999ap-4 1 1 0);
    (2, flow 0x1.999999999999ap-3 1 1 0);
    (3, flow 0x1.3333333333333p-2 1 1 0) ].

(** The same three records, with the flow ids given the other way round. *)
Definition three_flows_renumbered : list (FlowId * FlowStats) :=
  [ (1, flow 0x1.3333333333333p-2 1 1 0);
    (2, flow 0x1.999999999999ap-3 1 1 0);
    (3, flow 0x1.999999999999ap-4 1 1 0) ].

(** One flow that reports more packets lost than sent. *)
Definition lossy_flow : list (FlowId * FlowStats) := [ (1, flow 0 0 1 2) ].

(** Two flows: 100 packets sent together, 5 lost. *)
Definition two_flows : list (FlowId * FlowStats) :=
  [ (1, flow 0.5 58 60 2); (2, flow 0.25 37 40 3) ].

(** Flows that carried nothing. *)
Definition idle_flows : list (FlowId * FlowStats) := [ (1, flow 0 0 0 0) ].

Definition run_of (bytes : Z) (m : list (FlowId * FlowStats)) : EngineRun :=
  {| sink := Some {| GetTotalRx := bytes |}; stats := m |}.

Definition no_sink (m : list (FlowId * FlowStats)) : EngineRun :=
  {| sink := None; stats := m |}.

(** An engine that hands back the same run every time. *)
Definition engine (run : EngineRun) : nat -> Config -> EngineRun := fun _ _ => run.

End Sample.



(* ================================================================= *)
(** ** Vocabulary for binary64 arithmetic *)

Module FloatDefs.

(** The result of [binary_round_aux], read off its two shifts. *)
Definition decode (s : bool) (m e : Z) : spec_float :=
  match m with
  | Z0 => S754_zero s
  | Zpos p => if e <=? emax - prec then S754_finite s p e else S754_infinity s
  | Zneg _ => S754_nan
  end.

Definition bra_n (mx ex : Z) (lx : location) : Z :=
  let r1 := shr_fexp prec emax mx ex lx in
  round_nearest_even (shr_m (fst r1)) (loc_of_shr_record (fst r1)).

Definition bra_m (mx ex : Z) (lx : location) : Z :=
  let r1 := shr_fexp prec emax mx ex lx in
  shr_m (fst (shr_fexp prec emax (bra_n mx ex lx) (snd r1) loc_Exact)).

Definition bra_e (mx ex : Z) (lx : location) : Z :=
  let r1 := shr_fexp prec emax mx ex lx in
  snd (shr_fexp prec emax (bra_n mx ex lx) (snd r1) loc_Exact).

(** [le_at M E m e l]: the number located by mantissa [m], exponent [e]
    and location [l] is at most [M * 2^E], and on a grid at least as fine. *)
Definition le_at (M E m e : Z) (l : location) : Prop :=
  e <= E /\ (m < M * 2 ^ (E - e) \/ (m = M * 2 ^ (E - e) /\ l = loc_Exact)).

Definition canonical (M E : Z) : Prop :=
  0 < M /\ fexp prec emax (Zdigits2 M + E) = E.

(** [ge_at M E m e]: [M * 2^E <= m * 2^e]. *)
Definition ge_at (M E m e : Z) : Prop :=
  (e <= E /\ M * 2 ^ (E - e) <= m) \/ (E < e /\ M <= m * 2 ^ (e - E)).

Definition sf_nonneg (x : spec_float) : Prop :=
  match x with
  | S754_nan => False
  | S754_zero _ => True
  | S754_infinity s | S754_finite s _ _ => s = false
  end.

Definition sf_pos_finite (x : spec_float) : Prop :=
  match x with
  | S754_finite false _ _ => True
  | _ => False
  end.

Definition canon_m (n : Z) : Z := n * 2 ^ (53 - Zdigits2 n).
Definition canon_e (n : Z) : Z := Zdigits2 n - 53.

(** The binary64 number equal to the integer [n], [0 <= n < 2^53]. *)
Definition int_sf (n : Z) : spec_float :=
  match canon_m n with
  | Zpos p => S754_finite false p (canon_e n)
  | _ => S754_zero false
  end.

(** Strictly positive: a positive number or [+infinity]. *)
Definition sf_pos (x : spec_float) : Prop :=
  match x with
  | S754_infinity false => True
  | S754_finite false _ e => -1074 <= e
  | _ => False
  end.

(** A number (no infinity, no NaN) whose exponent is at most [B]. *)
Definition sf_exp_le (B : Z) (x : spec_float) : Prop :=
  match x with
  | S754_zero _ => True
  | S754_finite _ _ e => e <= B
  | _ => False
  end.

End FloatDefs.

(* ================================================================= *)
(** ** Binary64 arithmetic: facts about [SpecFloat] *)

Module FloatFacts.
Import FloatDefs.

Lemma fexp_eq e : fexp prec emax e = Z.max (e - 53) (-1074).
Proof. reflexivity. Qed.

Lemma fexp_mono a b : a <= b -> fexp prec emax a <= fexp prec emax b.
Proof. rewrite !fexp_eq. lia. Qed.

(** *** Binary digits *)

Lemma digits2_pos_size p : digits2_pos p = Pos.size p.
Proof. induction p; simpl; congruence. Qed.

Lemma digits2_pos_bounds p :
  2 ^ (Zpos (digits2_pos p) - 1) <= Zpos p < 2 ^ Zpos (digits2_pos p).
Proof.
  rewrite digits2_pos_size. split.
  - assert (H := Pos.size_le p).
    assert (2 ^ Zpos (Pos.size p) <= 2 * Zpos p).
    { rewrite <- Pos2Z.inj_pow. change (2 * Zpos p) with (Zpos p~0). now apply Pos2Z.pos_le_pos. }
    replace (Zpos (Pos.size p)) with (Z.succ (Zpos (Pos.size p) - 1)) in H0 by lia.
    rewrite Z.pow_succ_r in H0 by lia. lia.
  - assert (H := Pos.size_gt p). rewrite <- Pos2Z.inj_pow. now apply Pos2Z.pos_lt_pos.
Qed.

Lemma Zdigits2_nonneg m : 0 <= Zdigits2 m.
Proof. destruct m; simpl; lia. Qed.

Lemma Zdigits2_bounds m : 0 < m ->
  2 ^ (Zdigits2 m - 1) <= m < 2 ^ Zdigits2 m.
Proof. destruct m; try lia. intros _. apply digits2_pos_bounds. Qed.

Lemma Zdigits2_unique m d : 2 ^ (d - 1) <= m < 2 ^ d -> 0 < m -> Zdigits2 m = d.
Proof.
  intros Hd Hm. pose proof (Zdigits2_bounds m Hm) as Hb.
  pose proof (Zdigits2_nonneg m).
  assert (0 < d). { destruct (Z_lt_le_dec 0 d); auto. assert (2 ^ d <= 1); [|lia].
    destruct (Z.eq_dec d 0); [subst; simpl; lia|]. rewrite Z.pow_neg_r; lia. }
  destruct (Z.lt_trichotomy (Zdigits2 m) d) as [Hl|[He|Hg]]; auto.
  - assert (2 ^ Zdigits2 m <= 2 ^ (d - 1)) by (apply Z.pow_le_mono_r; lia). lia.
  - assert (2 ^ d <= 2 ^ (Zdigits2 m - 1)) by (apply Z.pow_le_mono_r; lia). lia.
Qed.

Lemma Zdigits2_mono a b : 0 <= a <= b -> Zdigits2 a <= Zdigits2 b.
Proof.
  intros [Ha Hab]. destruct (Z.eq_dec a 0) as [->|Hn]; [apply Zdigits2_nonneg|].
  pose proof (Zdigits2_bounds a ltac:(lia)). pose proof (Zdigits2_bounds b ltac:(lia)).
  destruct (Z_lt_le_dec (Zdigits2 b) (Zdigits2 a)); [|lia].
  assert (2 ^ Zdigits2 b <= 2 ^ (Zdigits2 a - 1)).
  { apply Z.pow_le_mono_r; lia. } lia.
Qed.

Lemma Zdigits2_shift m k : 0 < m -> 0 <= k -> Zdigits2 (m * 2 ^ k) = Zdigits2 m + k.
Proof.
  intros Hm Hk. pose proof (Zdigits2_bounds m Hm) as Hb.
  pose proof (Zdigits2_nonneg m).
  assert (0 < Zdigits2 m). { destruct m; simpl; lia. }
  apply Zdigits2_unique.
  - replace (Zdigits2 m + k - 1) with ((Zdigits2 m - 1) + k) by lia.
    rewrite !Z.pow_add_r by lia. assert (0 < 2 ^ k) by (apply Z.pow_pos_nonneg; lia). nia.
  - assert (0 < 2 ^ k) by (apply Z.pow_pos_nonneg; lia). nia.
Qed.

Lemma Zdigits2_div m k : 0 <= k -> 2 ^ k <= m -> Zdigits2 (m / 2 ^ k) = Zdigits2 m - k.
Proof.
  intros Hk Hm. assert (0 < 2 ^ k) by (apply Z.pow_pos_nonneg; lia).
  pose proof (Zdigits2_bounds m ltac:(lia)) as Hb.
  assert (k < Zdigits2 m).
  { destruct (Z_lt_le_dec k (Zdigits2 m)); auto.
    assert (2 ^ Zdigits2 m <= 2 ^ k) by (apply Z.pow_le_mono_r; lia). lia. }
  assert (0 < m / 2 ^ k). { apply Z.div_str_pos. lia. }
  apply Zdigits2_unique; auto.
  split.
  - apply Z.div_le_lower_bound; [lia|].
    rewrite <- Z.pow_add_r by lia. replace (k + (Zdigits2 m - k - 1)) with (Zdigits2 m - 1) by lia. lia.
  - apply Z.div_lt_upper_bound; [lia|].
    rewrite <- Z.pow_add_r by lia. replace (k + (Zdigits2 m - k)) with (Zdigits2 m) by lia. lia.
Qed.

Lemma Zdigits2_small m k : 0 <= m < 2 ^ k -> 0 <= k -> Zdigits2 m <= k.
Proof.
  intros [H0 Hm] Hk. destruct (Z.eq_dec m 0) as [->|]; [simpl; lia|].
  pose proof (Zdigits2_bounds m ltac:(lia)).
  destruct (Z_lt_le_dec k (Zdigits2 m)); [|lia].
  assert (2 ^ k <= 2 ^ (Zdigits2 m - 1)) by (apply Z.pow_le_mono_r; lia). lia.
Qed.

(** *** Right shifts with round and sticky bits *)

Lemma shr_1_spec mrs : 0 <= shr_m mrs ->
  shr_m (shr_1 mrs) = shr_m mrs / 2 /\
  (shr_r mrs = false -> shr_s mrs = false -> shr_m mrs mod 2 = 0 ->
   shr_r (shr_1 mrs) = false /\ shr_s (shr_1 mrs) = false).
Proof.
  destruct mrs as [m r s]. cbn [shr_m shr_r shr_s]. intros Hm.
  destruct m as [|[p|p|]|p]; cbn [shr_1 shr_m shr_r shr_s]; try lia.
  - split; [reflexivity|]. intros -> -> _. auto.
  - split. { rewrite Pos2Z.inj_xI. apply Z.div_unique with 1; lia. }
    intros -> ->. rewrite Pos2Z.inj_xI. intros H. exfalso.
    rewrite Z.add_comm, Z.mul_comm, Z.mod_add in H by lia. discriminate.
  - split. { rewrite Pos2Z.inj_xO. apply Z.div_unique with 0; lia. }
    intros -> ->. auto.
  - split; [reflexivity|]. intros -> ->. discriminate.
Qed.

Lemma iter_shr_1_spec p : forall mrs, 0 <= shr_m mrs ->
  shr_m (iter_pos shr_1 p mrs) = shr_m mrs / 2 ^ Zpos p /\
  (shr_r mrs = false -> shr_s mrs = false -> shr_m mrs mod 2 ^ Zpos p = 0 ->
   shr_r (iter_pos shr_1 p mrs) = false /\ shr_s (iter_pos shr_1 p mrs) = false).
Proof.
  assert (Hdd : forall m a b, 0 <= m -> 0 < a -> 0 < b -> m mod (a * b) = 0 ->
                 m mod a = 0 /\ (m / a) mod b = 0).
  { intros m a b Hm Ha Hb H. apply Z.mod_divide in H; [|nia]. destruct H as [c ->].
    split.
    - apply Z.mod_divide; [lia|]. exists (c * b). ring.
    - replace (c * (a * b)) with ((c * b) * a) by ring. rewrite Z.div_mul by lia.
      apply Z.mod_mul. lia. }
  induction p; intros mrs Hm.
  - simpl iter_pos.
    destruct (shr_1_spec mrs Hm) as [E1 F1].
    assert (H1 : 0 <= shr_m (shr_1 mrs)) by (rewrite E1; apply Z.div_pos; lia).
    destruct (IHp _ H1) as [E2 F2].
    assert (H2 : 0 <= shr_m (iter_pos shr_1 p (shr_1 mrs))).
    { rewrite E2. apply Z.div_pos; [lia|]. apply Z.pow_pos_nonneg; lia. }
    destruct (IHp _ H2) as [E3 F3].
    assert (P : 0 < 2 ^ Zpos p) by (apply Z.pow_pos_nonneg; lia).
    assert (EQ : 2 ^ Zpos p~1 = 2 * (2 ^ Zpos p * 2 ^ Zpos p)).
    { replace (Z.pos p~1) with (1 + (Z.pos p + Z.pos p)) by lia.
      rewrite (Z.pow_add_r 2 1), (Z.pow_add_r 2 (Z.pos p) (Z.pos p)) by lia. reflexivity. }
    split.
    + rewrite E3, E2, E1, EQ. rewrite !Z.div_div by lia. reflexivity.
    + intros Hr Hs Hmod. rewrite EQ in Hmod.
      destruct (Hdd _ 2 _ Hm ltac:(lia) (Z.mul_pos_pos _ _ P P) Hmod) as [Ha Hb].
      destruct (F1 Hr Hs Ha) as [Hr1 Hs1].
      rewrite <- E1 in Hb.
      destruct (Hdd _ _ _ H1 P P Hb) as [Hc Hd].
      destruct (F2 Hr1 Hs1 Hc) as [Hr2 Hs2].
      rewrite <- E2 in Hd.
      apply F3; auto.
  - simpl iter_pos.
    destruct (IHp _ Hm) as [E2 F2].
    assert (H2 : 0 <= shr_m (iter_pos shr_1 p mrs)).
    { rewrite E2. apply Z.div_pos; [lia|]. apply Z.pow_pos_nonneg; lia. }
    destruct (IHp _ H2) as [E3 F3].
    assert (P : 0 < 2 ^ Zpos p) by (apply Z.pow_pos_nonneg; lia).
    assert (EQ : 2 ^ Zpos p~0 = 2 ^ Zpos p * 2 ^ Zpos p).
    { replace (Z.pos p~0) with (Z.pos p + Z.pos p) by lia.
      rewrite (Z.pow_add_r 2 (Z.pos p) (Z.pos p)) by lia. reflexivity. }
    split.
    + rewrite E3, E2, EQ. rewrite !Z.div_div by lia. reflexivity.
    + intros Hr Hs Hmod. rewrite EQ in Hmod.
      destruct (Hdd _ _ _ Hm P P Hmod) as [Hc Hd].
      destruct (F2 Hr Hs Hc) as [Hr2 Hs2].
      rewrite <- E2 in Hd.
      apply F3; auto.
  - simpl iter_pos. change (2 ^ 1) with 2. apply shr_1_spec; auto.
Qed.

Lemma loc_of_shr_record_of_loc m l : loc_of_shr_record (shr_record_of_loc m l) = l.
Proof. destruct l as [|[]]; reflexivity. Qed.

Lemma shr_m_of_loc m l : shr_m (shr_record_of_loc m l) = m.
Proof. destruct l as [|[]]; reflexivity. Qed.

Lemma loc_exact_iff mrs :
  shr_r mrs = false /\ shr_s mrs = false <-> loc_of_shr_record mrs = loc_Exact.
Proof. destruct mrs as [m [] []]; simpl; intuition congruence. Qed.

(** [shr_fexp] divides the mantissa by [2^k], where [k] is the distance
    from the exponent to the canonical one, when [k] is positive. *)
Lemma shr_fexp_spec m e l : 0 <= m ->
  let k := fexp prec emax (Zdigits2 m + e) - e in
  0 <= shr_m (fst (shr_fexp prec emax m e l)) /\
  (k <= 0 -> shr_m (fst (shr_fexp prec emax m e l)) = m /\
             snd (shr_fexp prec emax m e l) = e /\
             loc_of_shr_record (fst (shr_fexp prec emax m e l)) = l) /\
  (0 < k -> shr_m (fst (shr_fexp prec emax m e l)) = m / 2 ^ k /\
            snd (shr_fexp prec emax m e l) = e + k /\
            (l = loc_Exact -> m mod 2 ^ k = 0 ->
             loc_of_shr_record (fst (shr_fexp prec emax m e l)) = loc_Exact)).
Proof.
  intros Hm k. unfold shr_fexp, shr. fold k.
  destruct k as [|p|p] eqn:Hk; cbn [fst snd].
  - rewrite shr_m_of_loc, loc_of_shr_record_of_loc. repeat split; auto; lia.
  - destruct (iter_shr_1_spec p (shr_record_of_loc m l)) as [E F].
    { now rewrite shr_m_of_loc. }
    rewrite shr_m_of_loc in E, F.
    split; [|split].
    + rewrite E. apply Z.div_pos; [lia|]. apply Z.pow_pos_nonneg; lia.
    + lia.
    + intros _. split; [exact E|]. split; [reflexivity|].
      intros -> Hmod. apply loc_exact_iff. apply F; auto.
  - rewrite shr_m_of_loc, loc_of_shr_record_of_loc. repeat split; auto; lia.
Qed.

Lemma round_nearest_even_spec m l :
  m <= round_nearest_even m l <= m + 1 /\
  (l = loc_Exact -> round_nearest_even m l = m).
Proof.
  destruct l as [|[]]; simpl; try (destruct (Z.even m)); split; try lia; try discriminate; auto.
Qed.

Lemma binary_round_aux_eq s mx ex lx :
  binary_round_aux prec emax s mx ex lx = decode s (bra_m mx ex lx) (bra_e mx ex lx).
Proof.
  unfold binary_round_aux, decode, bra_m, bra_e, bra_n.
  destruct (shr_fexp prec emax mx ex lx) as [mrs1 e1]. cbn [fst snd].
  destruct (shr_fexp prec emax _ e1 loc_Exact) as [mrs2 e2]. reflexivity.
Qed.

Lemma bra_n_nonneg mx ex lx : 0 <= mx -> 0 <= bra_n mx ex lx.
Proof.
  intros Hmx. unfold bra_n. cbv zeta.
  destruct (shr_fexp_spec mx ex lx Hmx) as (Hm1 & _ & _).
  pose proof (round_nearest_even_spec (shr_m (fst (shr_fexp prec emax mx ex lx)))
                (loc_of_shr_record (fst (shr_fexp prec emax mx ex lx)))) as [Hn _].
  lia.
Qed.

Lemma bra_m_nonneg mx ex lx : 0 <= mx -> 0 <= bra_m mx ex lx.
Proof.
  intros Hmx. unfold bra_m. cbv zeta.
  apply shr_fexp_spec. now apply bra_n_nonneg.
Qed.

(** *** Rounding never crosses a representable number from below *)

Lemma shr_fexp_le M E m e l :
  canonical M E -> 0 <= m -> le_at M E m e l ->
  le_at M E (shr_m (fst (shr_fexp prec emax m e l)))
            (snd (shr_fexp prec emax m e l))
            (loc_of_shr_record (fst (shr_fexp prec emax m e l))).
Proof.
  intros [HM Hc] Hm [HeE Hv].
  destruct (shr_fexp_spec m e l Hm) as (_ & Hnone & Hshift).
  set (k := fexp prec emax (Zdigits2 m + e) - e) in *.
  destruct (Z_le_gt_dec k 0) as [Hk|Hk].
  - destruct (Hnone Hk) as (-> & -> & ->). split; auto.
  - destruct (Hshift ltac:(lia)) as (-> & -> & Hex).
    assert (P : 0 < 2 ^ (E - e)) by (apply Z.pow_pos_nonneg; lia).
    assert (Hle : m <= M * 2 ^ (E - e)) by lia.
    assert (Hd : Zdigits2 m <= Zdigits2 M + (E - e)).
    { rewrite <- Zdigits2_shift by lia. apply Zdigits2_mono. lia. }
    assert (HkE : e + k <= E).
    { unfold k. rewrite <- Hc.
      replace (e + (fexp prec emax (Zdigits2 m + e) - e)) with (fexp prec emax (Zdigits2 m + e)) by lia.
      apply fexp_mono. lia. }
    split; auto.
    assert (Pk : 0 < 2 ^ k) by (apply Z.pow_pos_nonneg; lia).
    assert (EQ : M * 2 ^ (E - e) = (M * 2 ^ (E - (e + k))) * 2 ^ k).
    { rewrite <- Z.mul_assoc, <- Z.pow_add_r by lia. do 2 f_equal. lia. }
    destruct Hv as [Hlt|[Heq Hl]].
    + left. apply Z.div_lt_upper_bound; [lia|]. rewrite EQ in Hlt. lia.
    + assert (Hdiv : m / 2 ^ k = M * 2 ^ (E - (e + k))).
      { rewrite Heq, EQ. apply Z.div_mul. lia. }
      assert (Hmod : m mod 2 ^ k = 0).
      { rewrite Heq, EQ. apply Z.mod_mul. lia. }
      right. split; auto.
Qed.

Lemma bra_le M E mx ex lx :
  canonical M E -> 0 <= mx -> le_at M E mx ex lx ->
  bra_e mx ex lx <= E /\ bra_m mx ex lx <= M * 2 ^ (E - bra_e mx ex lx).
Proof.
  intros HC Hmx Hle.
  pose proof (bra_n_nonneg mx ex lx Hmx) as Hn0.
  unfold bra_m, bra_e. unfold bra_n in *. cbv zeta in *.
  pose proof (shr_fexp_le M E mx ex lx HC Hmx Hle) as H1.
  destruct (shr_fexp_spec mx ex lx Hmx) as (Hm1 & _ & _).
  set (r1 := shr_fexp prec emax mx ex lx) in *.
  destruct (round_nearest_even_spec (shr_m (fst r1)) (loc_of_shr_record (fst r1))) as [Hn Hnx].
  set (n := round_nearest_even _ _) in *.
  assert (Hle2 : le_at M E n (snd r1) loc_Exact).
  { destruct H1 as [He [Hlt|[Heq Hl]]]; split; auto.
    - destruct (Z.eq_dec n (M * 2 ^ (E - snd r1))); [right; auto|left; lia].
    - right. split; auto. rewrite Hnx; auto. }
  pose proof (shr_fexp_le M E n (snd r1) loc_Exact HC Hn0 Hle2) as H2.
  destruct H2 as [He Hv]. split; auto. lia.
Qed.

(** *** Rounding never crosses a representable number from above *)

Lemma fexp_ge_emin x : -1074 <= fexp prec emax x.
Proof. rewrite fexp_eq. lia. Qed.

Lemma canonical_digits M E : canonical M E -> Zdigits2 M <= 53 /\ -1074 <= E.
Proof. intros [HM Hc]. rewrite fexp_eq in Hc. lia. Qed.

Lemma canonical_lt M E : canonical M E -> M < 2 ^ 53.
Proof.
  intros HC. destruct (canonical_digits _ _ HC) as [Hd _]. destruct HC as [HM _].
  pose proof (Zdigits2_bounds M HM) as [_ Hb].
  assert (2 ^ Zdigits2 M <= 2 ^ 53) by (apply Z.pow_le_mono_r; lia). lia.
Qed.

Lemma shr_fexp_ge M E m e l :
  canonical M E -> 0 <= m -> ge_at M E m e ->
  ge_at M E (shr_m (fst (shr_fexp prec emax m e l))) (snd (shr_fexp prec emax m e l)).
Proof.
  intros HC Hm Hge.
  pose proof (canonical_lt _ _ HC) as HM53.
  pose proof (canonical_digits _ _ HC) as [_ HEmin].
  destruct HC as [HM Hc].
  destruct (shr_fexp_spec m e l Hm) as (_ & Hnone & Hshift).
  set (k := fexp prec emax (Zdigits2 m + e) - e) in *.
  destruct (Z_le_gt_dec k 0) as [Hk|Hk].
  - destruct (Hnone Hk) as (-> & -> & _). exact Hge.
  - destruct (Hshift ltac:(lia)) as (-> & -> & _).
    assert (Pk : 0 < 2 ^ k) by (apply Z.pow_pos_nonneg; lia).
    assert (Hmpos : 0 < m).
    { destruct Hge as [[He Hv]|[He Hv]].
      - assert (0 < 2 ^ (E - e)) by (apply Z.pow_pos_nonneg; lia). nia.
      - assert (0 < 2 ^ (e - E)) by (apply Z.pow_pos_nonneg; lia). nia. }
    destruct (Z_le_gt_dec (e + k) E) as [HkE|HkE].
    + left. split; auto.
      destruct Hge as [[He Hv]|[He Hv]]; [|lia].
      apply Z.div_le_lower_bound; [lia|].
      replace (E - e) with ((E - (e + k)) + k) in Hv by lia.
      rewrite Z.pow_add_r in Hv by lia. lia.
    + right. split; [lia|].
      assert (Hk53 : k = Zdigits2 m - 53).
      { unfold k in *. rewrite fexp_eq in *. lia. }
      pose proof (Zdigits2_bounds m Hmpos) as [Hlo _].
      assert (Hq : 2 ^ 52 <= m / 2 ^ k).
      { apply Z.div_le_lower_bound; [lia|].
        rewrite <- Z.pow_add_r by lia. replace (k + 52) with (Zdigits2 m - 1) by lia. exact Hlo. }
      assert (2 <= 2 ^ (e + k - E)).
      { change 2 with (2 ^ 1) at 1. apply Z.pow_le_mono_r; lia. }
      change (2 ^ 53) with (2 ^ 52 * 2) in HM53. nia.
Qed.

Lemma ge_at_mono M E m m' e : ge_at M E m e -> m <= m' -> ge_at M E m' e.
Proof.
  intros [[He Hv]|[He Hv]] Hm; [left|right]; split; auto; try lia.
  assert (0 < 2 ^ (e - E)) by (apply Z.pow_pos_nonneg; lia). nia.
Qed.

Lemma ge_at_pos M E m e : 0 < M -> ge_at M E m e -> 0 < m.
Proof.
  intros HM [[He Hv]|[He Hv]].
  - assert (0 < 2 ^ (E - e)) by (apply Z.pow_pos_nonneg; lia). nia.
  - assert (0 < 2 ^ (e - E)) by (apply Z.pow_pos_nonneg; lia). nia.
Qed.

Lemma bra_ge M E mx ex lx :
  canonical M E -> 0 <= mx -> ge_at M E mx ex ->
  ge_at M E (bra_m mx ex lx) (bra_e mx ex lx).
Proof.
  intros HC Hmx Hge.
  pose proof (bra_n_nonneg mx ex lx Hmx) as Hn0.
  unfold bra_m, bra_e. unfold bra_n in *. cbv zeta in *.
  pose proof (shr_fexp_ge M E mx ex lx HC Hmx Hge) as H1.
  set (r1 := shr_fexp prec emax mx ex lx) in *.
  destruct (round_nearest_even_spec (shr_m (fst r1)) (loc_of_shr_record (fst r1))) as [Hn _].
  set (n := round_nearest_even _ _) in *.
  apply shr_fexp_ge; auto.
  apply ge_at_mono with (shr_m (fst r1)); auto. lia.
Qed.

(** *** The result of rounding is canonical *)

Lemma shr_fexp_canonical m e l :
  0 <= m -> e <= fexp prec emax (Zdigits2 m + e) ->
  (shr_m (fst (shr_fexp prec emax m e l)) = 0 /\ snd (shr_fexp prec emax m e l) = -1074) \/
  canonical (shr_m (fst (shr_fexp prec emax m e l))) (snd (shr_fexp prec emax m e l)).
Proof.
  intros Hm Hk0.
  destruct (shr_fexp_spec m e l Hm) as (_ & Hnone & Hshift).
  set (k := fexp prec emax (Zdigits2 m + e) - e) in *.
  pose proof (Zdigits2_nonneg m) as Hd0.
  destruct (Z.eq_dec k 0) as [Hk|Hk].
  - destruct (Hnone ltac:(lia)) as (-> & -> & _).
    destruct (Z.eq_dec m 0) as [->|Hne].
    + left. split; auto. unfold k in Hk. simpl Zdigits2 in Hk. rewrite fexp_eq in Hk. lia.
    + right. split; [lia|]. unfold k in Hk. lia.
  - destruct (Hshift ltac:(lia)) as (-> & -> & _).
    assert (Pk : 0 < 2 ^ k) by (apply Z.pow_pos_nonneg; lia).
    destruct (Z_lt_le_dec m (2 ^ k)) as [Hsmall|Hbig].
    + left. rewrite Z.div_small by lia. split; auto.
      assert (Zdigits2 m <= k) by (apply Zdigits2_small; lia).
      unfold k in *. rewrite fexp_eq in *. lia.
    + right. split.
      * apply Z.div_str_pos. lia.
      * rewrite Zdigits2_div by lia. unfold k.
        replace (Zdigits2 m - (fexp prec emax (Zdigits2 m + e) - e) +
                 (e + (fexp prec emax (Zdigits2 m + e) - e)))
          with (Zdigits2 m + e) by lia.
        lia.
Qed.

Lemma bra_canonical mx ex lx :
  0 <= mx -> ex <= fexp prec emax (Zdigits2 mx + ex) ->
  bra_m mx ex lx = 0 \/ canonical (bra_m mx ex lx) (bra_e mx ex lx).
Proof.
  intros Hmx Hk.
  pose proof (bra_n_nonneg mx ex lx Hmx) as Hn0.
  unfold bra_m, bra_e. unfold bra_n in *. cbv zeta in *.
  pose proof (shr_fexp_canonical mx ex lx Hmx Hk) as H1.
  set (r1 := shr_fexp prec emax mx ex lx) in *.
  destruct (round_nearest_even_spec (shr_m (fst r1)) (loc_of_shr_record (fst r1))) as [Hn _].
  set (n := round_nearest_even _ _) in *.
  assert (Hk2 : snd r1 <= fexp prec emax (Zdigits2 n + snd r1)).
  { destruct H1 as [[Hz He]|[Hp Hc]].
    - rewrite He. apply fexp_ge_emin.
    - rewrite <- Hc at 1. apply fexp_mono.
      assert (Zdigits2 (shr_m (fst r1)) <= Zdigits2 n) by (apply Zdigits2_mono; lia). lia. }
  destruct (shr_fexp_canonical n (snd r1) loc_Exact Hn0 Hk2) as [[Hz _]|Hc]; auto.
Qed.

Lemma decode_valid s m e :
  m = 0 \/ canonical m e -> valid_binary (decode s m e) = true.
Proof.
  intros H. unfold decode. destruct m as [|p|p]; auto.
  destruct (Z.leb_spec e (emax - prec)); auto.
  destruct H as [H|[_ Hc]]; [discriminate|].
  simpl. unfold bounded, canonical_mantissa.
  change (Z.pos (digits2_pos p)) with (Zdigits2 (Z.pos p)).
  rewrite Hc, Z.eqb_refl. simpl. now apply Z.leb_le.
Qed.

(** *** A representable number is its own rounding *)

Lemma bra_exact M E mx ex :
  canonical M E -> ex <= E -> mx = M * 2 ^ (E - ex) ->
  bra_m mx ex loc_Exact = M /\ bra_e mx ex loc_Exact = E.
Proof.
  intros HC He Hmx.
  assert (HM : 0 < M) by apply HC.
  assert (P : 0 < 2 ^ (E - ex)) by (apply Z.pow_pos_nonneg; lia).
  assert (Hmx0 : 0 <= mx) by nia.
  destruct (bra_le M E mx ex loc_Exact HC Hmx0) as [Hle1 Hle2].
  { split; auto. }
  pose proof (bra_ge M E mx ex loc_Exact HC Hmx0) as Hge.
  assert (Hd : Zdigits2 mx + ex = Zdigits2 M + E).
  { rewrite Hmx, Zdigits2_shift by lia. lia. }
  destruct (bra_canonical mx ex loc_Exact Hmx0) as [Hz|Hcan].
  { rewrite Hd. destruct HC as [_ ->]. exact He. }
  - exfalso. apply (ge_at_pos M E) in Hge; [lia|lia|]. left. split; lia.
  - set (m2 := bra_m mx ex loc_Exact) in *. set (e2 := bra_e mx ex loc_Exact) in *.
    assert (Hm2 : m2 = M * 2 ^ (E - e2)).
    { destruct Hge as [[_ Hv]|[Hc _]]; [left; split; lia| |]; lia. }
    assert (He2 : e2 = E).
    { destruct Hcan as [_ Hc]. rewrite Hm2, Zdigits2_shift in Hc by lia.
      replace (Zdigits2 M + (E - e2) + e2) with (Zdigits2 M + E) in Hc by lia.
      destruct HC as [_ HC]. lia. }
    split; auto. rewrite Hm2, He2, Z.sub_diag. simpl. lia.
Qed.

(** *** Alignment before rounding *)

Lemma shl_align_spec mx ex ex' :
  snd (shl_align mx ex ex') = Z.min ex ex' /\
  Zpos (fst (shl_align mx ex ex')) = Zpos mx * 2 ^ (ex - snd (shl_align mx ex ex')).
Proof.
  unfold shl_align. destruct (ex' - ex) as [|d|d] eqn:Hd; cbn [fst snd].
  - split; [lia|]. rewrite Z.sub_diag. simpl. lia.
  - split; [lia|]. rewrite Z.sub_diag. simpl. lia.
  - split; [lia|].
    change (Pos.iter xO mx d) with (shift_pos d mx). rewrite shift_pos_correct.
    rewrite Z.pow_pos_fold. replace (ex - ex') with (Z.pos d) by lia. ring.
Qed.

Lemma binary_round_eq s mx ex :
  binary_round prec emax s mx ex =
  let r := shl_align mx ex (fexp prec emax (Zpos (digits2_pos mx) + ex)) in
  decode s (bra_m (Zpos (fst r)) (snd r) loc_Exact) (bra_e (Zpos (fst r)) (snd r) loc_Exact).
Proof.
  unfold binary_round.
  destruct (shl_align mx ex _) as [mz ez]. cbn [fst snd]. apply binary_round_aux_eq.
Qed.

(** The aligned input of [binary_round] is at least as precise as its
    canonical form. *)
Lemma shl_align_fexp mx ex :
  let r := shl_align mx ex (fexp prec emax (Zpos (digits2_pos mx) + ex)) in
  snd r <= fexp prec emax (Zdigits2 (Zpos (fst r)) + snd r).
Proof.
  cbv zeta.
  destruct (shl_align_spec mx ex (fexp prec emax (Zpos (digits2_pos mx) + ex))) as [He Hm].
  set (r := shl_align _ _ _) in *.
  assert (Hle : snd r <= ex) by lia.
  rewrite Hm, Zdigits2_shift by lia.
  change (Zdigits2 (Z.pos mx)) with (Z.pos (digits2_pos mx)).
  replace (Z.pos (digits2_pos mx) + (ex - snd r) + snd r) with (Zpos (digits2_pos mx) + ex)
    by lia.
  lia.
Qed.

Lemma binary_round_valid s mx ex : valid_binary (binary_round prec emax s mx ex) = true.
Proof.
  rewrite binary_round_eq. cbv zeta. apply decode_valid.
  apply bra_canonical; [lia|]. apply shl_align_fexp.
Qed.

Lemma binary_normalize_valid m e sz : valid_binary (binary_normalize prec emax m e sz) = true.
Proof. destruct m; simpl; auto using binary_round_valid. Qed.

(** *** Signs *)

Lemma sf_pos_finite_nonneg x : sf_pos_finite x -> sf_nonneg x.
Proof. destruct x as [| | |[]]; simpl; tauto. Qed.

Lemma decode_nonneg m e : 0 <= m -> sf_nonneg (decode false m e).
Proof.
  intros Hm. unfold decode. destruct m; [exact I| |lia].
  destruct (e <=? emax - prec); reflexivity.
Qed.

Lemma binary_round_aux_nonneg mx ex lx :
  0 <= mx -> sf_nonneg (binary_round_aux prec emax false mx ex lx).
Proof. intros H. rewrite binary_round_aux_eq. apply decode_nonneg. now apply bra_m_nonneg. Qed.

Lemma binary_round_nonneg mx ex : sf_nonneg (binary_round prec emax false mx ex).
Proof. rewrite binary_round_eq. cbv zeta. apply decode_nonneg. apply bra_m_nonneg. lia. Qed.

Lemma SFmul_nonneg x y :
  sf_nonneg x -> sf_pos_finite y -> sf_nonneg (SFmul prec emax x y).
Proof.
  destruct x as [sx|sx| |sx mx ex], y as [sy|sy| |[] my ey]; simpl; try tauto;
    intros Hx _; subst; try reflexivity.
  apply binary_round_aux_nonneg. lia.
Qed.


Lemma SFdiv_nonneg x y :
  sf_nonneg x -> sf_pos_finite y -> sf_nonneg (SFdiv prec emax x y).
Proof.
  destruct x as [sx|sx| |sx mx ex], y as [sy|sy| |[] my ey]; simpl; try tauto;
    intros Hx _; subst; try reflexivity.
  unfold SFdiv_core_binary.
  set (m' := match _ with Z0 => _ | Zpos _ => _ | Zneg _ => _ end).
  assert (Hm' : 0 <= m').
  { unfold m'. destruct (_ - _ - _)%Z; try lia. apply Z.shiftl_nonneg. lia. }
  pose proof (Z_div_mod m' (Zpos my) ltac:(lia)) as Hdm.
  destruct (Z.div_eucl m' (Zpos my)) as [q r]. cbn [xorb].
  apply binary_round_aux_nonneg. nia.
Qed.

Lemma SFadd_nonneg x y :
  sf_nonneg x -> sf_nonneg y -> sf_nonneg (SFadd prec emax x y).
Proof.
  destruct x as [sx|sx| |sx mx ex], y as [sy|sy| |sy my ey]; simpl; try tauto;
    intros Hx Hy; subst; try reflexivity.
  - destruct sx, sy; exact I.
  - cbn [cond_Zopp].
    set (a := fst (shl_align mx ex (Z.min ex ey))).
    set (b := fst (shl_align my ey (Z.min ex ey))).
    cbn [Z.add]. apply binary_round_nonneg.
Qed.

(** *** Integers below [2^53] are binary64 numbers *)

Lemma small_digits n : 0 < n < 2 ^ 53 -> 1 <= Zdigits2 n <= 53.
Proof.
  intros Hn. split.
  - destruct n; simpl; lia.
  - apply Zdigits2_small; lia.
Qed.

Lemma canon_canonical n : 0 < n < 2 ^ 53 -> canonical (canon_m n) (canon_e n).
Proof.
  intros Hn. pose proof (small_digits n Hn) as Hd. unfold canon_m, canon_e.
  assert (0 < 2 ^ (53 - Zdigits2 n)) by (apply Z.pow_pos_nonneg; lia).
  split; [nia|].
  rewrite Zdigits2_shift by lia. rewrite fexp_eq. lia.
Qed.

Lemma int_sf_pos n : 0 < n < 2 ^ 53 ->
  int_sf n = S754_finite false (Z.to_pos (canon_m n)) (canon_e n).
Proof.
  intros Hn. destruct (canon_canonical n Hn) as [Hp _]. unfold int_sf.
  destruct (canon_m n); try lia. reflexivity.
Qed.

Lemma decode_canon s n : 0 < n < 2 ^ 53 ->
  decode s (canon_m n) (canon_e n) = S754_finite s (Z.to_pos (canon_m n)) (canon_e n).
Proof.
  intros Hn. destruct (canon_canonical n Hn) as [Hp _].
  pose proof (small_digits n Hn) as Hd. unfold decode.
  destruct (canon_m n) eqn:E; try lia.
  destruct (Z.leb_spec (canon_e n) (emax - prec)) as [_|Hgt]; [reflexivity|].
  unfold canon_e, emax, prec in Hgt. lia.
Qed.

(** The conversion of an integer below [2^53] is exact. *)
Lemma binary_normalize_int n : 0 <= n < 2 ^ 53 ->
  binary_normalize prec emax n 0 false = int_sf n.
Proof.
  intros [Hn0 Hn]. destruct (Z.eq_dec n 0) as [->|Hne]; [reflexivity|].
  assert (Hn' : 0 < n < 2 ^ 53) by lia.
  pose proof (small_digits n Hn') as Hd.
  destruct n as [|p|p]; try lia. cbn [binary_normalize].
  rewrite binary_round_eq. cbv zeta.
  destruct (shl_align_spec p 0 (fexp prec emax (Zpos (digits2_pos p) + 0))) as [He Hm].
  set (r := shl_align _ _ _) in *.
  change (Z.pos (digits2_pos p)) with (Zdigits2 (Z.pos p)) in He.
  rewrite Z.add_0_r, fexp_eq in He.
  destruct (bra_exact (canon_m (Zpos p)) (canon_e (Zpos p)) (Zpos (fst r)) (snd r)) as [-> ->].
  - now apply canon_canonical.
  - unfold canon_e. lia.
  - rewrite Hm. unfold canon_m, canon_e.
    rewrite <- Z.mul_assoc, <- Z.pow_add_r by lia. do 2 f_equal. lia.
  - rewrite decode_canon by auto. now rewrite int_sf_pos.
Qed.

(** The product of two integers is exact when it is below [2^53]. *)
Lemma Zdigits2_mul_ge a b : 0 < a -> 0 < b -> Zdigits2 a + Zdigits2 b - 1 <= Zdigits2 (a * b).
Proof.
  intros Ha Hb.
  pose proof (Zdigits2_bounds a Ha) as [Ha1 _]. pose proof (Zdigits2_bounds b Hb) as [Hb1 _].
  assert (0 < Zdigits2 a) by (destruct a; simpl; lia).
  assert (0 < Zdigits2 b) by (destruct b; simpl; lia).
  assert (Hab : 2 ^ (Zdigits2 a - 1 + (Zdigits2 b - 1)) <= a * b).
  { rewrite Z.pow_add_r by lia.
    assert (0 < 2 ^ (Zdigits2 a - 1)) by (apply Z.pow_pos_nonneg; lia).
    assert (0 < 2 ^ (Zdigits2 b - 1)) by (apply Z.pow_pos_nonneg; lia). nia. }
  pose proof (Zdigits2_bounds (a * b) ltac:(nia)) as [_ Hu].
  destruct (Z_lt_le_dec (Zdigits2 (a * b)) (Zdigits2 a + Zdigits2 b - 1)); [|lia].
  assert (2 ^ Zdigits2 (a * b) <= 2 ^ (Zdigits2 a - 1 + (Zdigits2 b - 1))).
  { apply Z.pow_le_mono_r; lia. }
  lia.
Qed.

Lemma int_sf_0 : int_sf 0 = S754_zero false.
Proof. reflexivity. Qed.

Lemma SFmul_int a b : 0 <= a -> 0 <= b -> a * b < 2 ^ 53 ->
  SFmul prec emax (int_sf a) (int_sf b) = int_sf (a * b).
Proof.
  intros Ha Hb Hab.
  destruct (Z.eq_dec a 0) as [->|Ha0].
  { rewrite Z.mul_0_l, int_sf_0. unfold int_sf. destruct (canon_m b); reflexivity. }
  destruct (Z.eq_dec b 0) as [->|Hb0].
  { rewrite Z.mul_0_r, int_sf_0. unfold int_sf. destruct (canon_m a); reflexivity. }
  assert (Ha' : 0 < a < 2 ^ 53) by nia.
  assert (Hb' : 0 < b < 2 ^ 53) by nia.
  assert (Hab' : 0 < a * b < 2 ^ 53) by nia.
  pose proof (small_digits _ Ha') as Hda. pose proof (small_digits _ Hb') as Hdb.
  pose proof (small_digits _ Hab') as Hdab.
  pose proof (Zdigits2_mul_ge a b ltac:(lia) ltac:(lia)) as Hd.
  destruct (canon_canonical _ Ha') as [Hpa _]. destruct (canon_canonical _ Hb') as [Hpb _].
  rewrite (int_sf_pos a), (int_sf_pos b), (int_sf_pos (a * b)) by auto.
  cbn [SFmul xorb]. rewrite binary_round_aux_eq.
  destruct (bra_exact (canon_m (a * b)) (canon_e (a * b))
              (Zpos (Z.to_pos (canon_m a) * Z.to_pos (canon_m b))) (canon_e a + canon_e b))
    as [-> ->].
  - now apply canon_canonical.
  - unfold canon_e. lia.
  - rewrite Pos2Z.inj_mul, !Z2Pos.id by lia. unfold canon_m, canon_e.
    rewrite <- (Z.mul_assoc (a * b)), <- Z.pow_add_r by lia.
    replace (53 - Zdigits2 (a * b) + (Zdigits2 (a * b) - 53 - (Zdigits2 a - 53 + (Zdigits2 b - 53))))
      with ((53 - Zdigits2 a) + (53 - Zdigits2 b)) by lia.
    rewrite Z.pow_add_r by lia. ring.
  - now apply decode_canon.
Qed.

(** A quotient of two integers never rounds above an integer bound. *)
Lemma new_location_0 n : new_location n 0 = loc_Exact.
Proof. unfold new_location, new_location_even, new_location_odd. destruct (Z.even n); reflexivity. Qed.

Lemma div_exact_unique N d q r Y :
  0 < d -> N = d * q + r -> 0 <= r < d -> N = Y * d -> q = Y /\ r = 0.
Proof.
  intros Hd HN Hr HY. assert (Hr' : d * (Y - q) = r) by lia.
  assert (Y - q = 0) by nia. split; [lia|]. rewrite <- Hr'. replace (Y - q) with 0 by lia. ring.
Qed.



(** *** The conversion [uint64_t -> double] *)

Lemma canonical_one : canonical (2 ^ 52) (-52).
Proof. split; reflexivity. Qed.

Lemma canonical_two64 : canonical (2 ^ 52) 12.
Proof. split; reflexivity. Qed.

Lemma binary_normalize_pos_finite n : 0 < n < 2 ^ 64 ->
  sf_pos_finite (binary_normalize prec emax n 0 false).
Proof.
  intros [Hn0 Hn]. destruct n as [|p|p]; try lia. cbn [binary_normalize].
  rewrite binary_round_eq. cbv zeta.
  destruct (shl_align_spec p 0 (fexp prec emax (Zpos (digits2_pos p) + 0))) as [He Hm].
  set (r := shl_align _ _ _) in *.
  change (Z.pos (digits2_pos p)) with (Zdigits2 (Z.pos p)) in He.
  rewrite Z.add_0_r, fexp_eq in He.
  assert (Hd : 1 <= Zdigits2 (Z.pos p)) by (simpl; lia).
  assert (Pz : 0 < 2 ^ (0 - snd r)) by (apply Z.pow_pos_nonneg; lia).
  destruct (bra_le (2 ^ 52) 12 (Zpos (fst r)) (snd r) loc_Exact canonical_two64) as [HeE _].
  { lia. }
  { split; [lia|]. left. rewrite Hm.
    replace (12 - snd r) with (12 + (0 - snd r)) by lia. rewrite Z.pow_add_r by lia.
    rewrite Z.mul_assoc. change (2 ^ 52 * 2 ^ 12) with (2 ^ 64).
    apply Z.mul_lt_mono_pos_r; lia. }
  pose proof (bra_ge (2 ^ 52) (-52) (Zpos (fst r)) (snd r) loc_Exact canonical_one) as Hge.
  apply (ge_at_pos (2 ^ 52) (-52)) in Hge; [|reflexivity| |].
  - set (m2 := bra_m _ _ _) in *. set (e2 := bra_e _ _ _) in *.
    unfold decode. destruct m2; try lia.
    destruct (Z.leb_spec e2 (emax - prec)) as [_|Hgt]; [exact I|].
    unfold emax, prec in Hgt. lia.
  - lia.
  - destruct (Z.eq_dec (snd r) (-52)) as [E52|N52].
    + left. split; [lia|]. rewrite Hm, E52. simpl (2 ^ (-52 - -52)). change (0 - -52) with 52.
      assert (0 < 2 ^ 52) by reflexivity. nia.
    + right. split; [lia|]. rewrite Hm, <- Z.mul_assoc, <- Z.pow_add_r by lia.
      replace (0 - snd r + (snd r - -52)) with 52 by lia.
      assert (0 < 2 ^ 52) by reflexivity. nia.
Qed.

Lemma Prim2SF_double_of_uint64 n :
  Prim2SF (double_of_uint64 n) = binary_normalize prec emax n 0 false.
Proof. apply Prim2SF_SF2Prim, binary_normalize_valid. Qed.


Lemma double_of_uint64_pos_finite n : 0 < n < 2 ^ 64 ->
  sf_pos_finite (Prim2SF (double_of_uint64 n)).
Proof. intros Hn. rewrite Prim2SF_double_of_uint64. now apply binary_normalize_pos_finite. Qed.

Lemma double_of_uint64_int n : 0 <= n < 2 ^ 53 -> Prim2SF (double_of_uint64 n) = int_sf n.
Proof. intros Hn. rewrite Prim2SF_double_of_uint64. now apply binary_normalize_int. Qed.

(** *** Primitive comparisons *)

Lemma is_zero_false x : sf_pos_finite (Prim2SF x) -> is_zero x = false.
Proof.
  intros H. unfold is_zero. rewrite FloatAxioms.eqb_spec.
  destruct (Prim2SF x) as [| | |[] m e]; try contradiction. reflexivity.
Qed.

Lemma leb_zero x : (0 <=? x)%float = true <-> sf_nonneg (Prim2SF x).
Proof.
  rewrite FloatAxioms.leb_spec. change (Prim2SF 0) with (S754_zero false).
  destruct (Prim2SF x) as [s|[]| |[] m e]; cbv [SFleb SFcompare sf_nonneg];
    split; intros H; try reflexivity; try exact I; try discriminate H; try contradiction.
Qed.

(** *** A difference of two distinct numbers is not zero *)

Lemma canonical_min : canonical 1 (-1074).
Proof. split; reflexivity. Qed.

Lemma decode_pos m e : 0 < m -> -1074 <= e -> sf_pos (decode false m e).
Proof.
  intros Hm He. unfold decode. destruct m; try lia.
  destruct (e <=? emax - prec); simpl; auto.
Qed.

Lemma canonical_emin M E : canonical M E -> -1074 <= E.
Proof. intros [_ <-]. apply fexp_ge_emin. Qed.

Lemma shr_fexp_emin m e l : 0 <= m -> -1074 <= snd (shr_fexp prec emax m e l).
Proof.
  intros Hm. destruct (shr_fexp_spec m e l Hm) as (_ & Hnone & Hshift).
  pose proof (fexp_ge_emin (Zdigits2 m + e)) as Hf.
  destruct (Z_le_gt_dec (fexp prec emax (Zdigits2 m + e) - e) 0) as [Hk|Hk].
  - destruct (Hnone Hk) as (_ & -> & _). lia.
  - destruct (Hshift ltac:(lia)) as (_ & -> & _). lia.
Qed.

Lemma bra_e_emin mx ex lx : 0 <= mx -> -1074 <= bra_e mx ex lx.
Proof. intros Hmx. unfold bra_e. cbv zeta. apply shr_fexp_emin. now apply bra_n_nonneg. Qed.

(** Rounding a number that is at least [2^emin] gives a positive number:
    there is no underflow to zero. *)
Lemma binary_round_aux_pos mx ex lx :
  0 <= mx -> ge_at 1 (-1074) mx ex ->
  sf_pos (binary_round_aux prec emax false mx ex lx).
Proof.
  intros Hmx Hge. rewrite binary_round_aux_eq.
  pose proof (bra_ge 1 (-1074) mx ex lx canonical_min Hmx Hge) as Hge2.
  apply ge_at_pos in Hge2; [|lia].
  apply decode_pos; auto. now apply bra_e_emin.
Qed.

Lemma ge_at_min m e : 0 < m -> -1074 <= e -> ge_at 1 (-1074) m e.
Proof.
  intros Hm He. destruct (Z.eq_dec e (-1074)) as [->|Hne].
  - left. split; [lia|]. simpl. lia.
  - right. split; [lia|]. assert (0 < 2 ^ (e - -1074)) by (apply Z.pow_pos_nonneg; lia). nia.
Qed.

Lemma binary_round_pos mx ex :
  -1074 <= ex -> sf_pos (binary_round prec emax false mx ex).
Proof.
  intros Hex. unfold binary_round.
  destruct (shl_align_spec mx ex (fexp prec emax (Zpos (digits2_pos mx) + ex))) as [He _].
  pose proof (fexp_ge_emin (Zpos (digits2_pos mx) + ex)) as Hf.
  destruct (shl_align mx ex _) as [mz ez]. cbn [fst snd] in *.
  apply binary_round_aux_pos; [lia|]. apply ge_at_min; lia.
Qed.

Lemma valid_finite s m e :
  valid_binary (S754_finite s m e) = true -> canonical (Zpos m) e.
Proof.
  simpl. unfold bounded, canonical_mantissa. intros H.
  apply andb_true_iff in H as [H _]. apply Z.eqb_eq in H. split; [lia|exact H].
Qed.

(** Mantissas of canonical numbers, aligned, compare as the numbers do. *)
Lemma aligned_lt mx ex my ey :
  canonical (Zpos mx) ex -> canonical (Zpos my) ey ->
  ex < ey \/ (ex = ey /\ (mx < my)%positive) ->
  Zpos (fst (shl_align mx ex (Z.min ex ey))) < Zpos (fst (shl_align my ey (Z.min ex ey))).
Proof.
  intros Hx Hy Hlt.
  destruct (shl_align_spec mx ex (Z.min ex ey)) as [Ex Mx].
  destruct (shl_align_spec my ey (Z.min ex ey)) as [Ey My].
  rewrite Mx, My, Ex, Ey.
  destruct Hlt as [Hlt|[-> Hlt]].
  - replace (Z.min ex (Z.min ex ey)) with ex by lia.
    replace (Z.min ey (Z.min ex ey)) with ex by lia.
    rewrite Z.sub_diag, Z.mul_1_r.
    pose proof (canonical_lt _ _ Hx) as Hmx.
    pose proof (canonical_emin _ _ Hx) as Hex.
    destruct Hy as [_ Hcy]. rewrite fexp_eq in Hcy.
    assert (Hdy : Zdigits2 (Zpos my) = 53) by lia.
    pose proof (Zdigits2_bounds (Zpos my) ltac:(lia)) as [Hlo _]. rewrite Hdy in Hlo.
    assert (2 <= 2 ^ (ey - ex)).
    { change 2 with (2 ^ 1) at 1. apply Z.pow_le_mono_r; lia. }
    change (2 ^ 53) with (2 ^ 52 * 2) in Hmx. change (53 - 1) with 52 in Hlo. nia.
  - replace (Z.min ey (Z.min ey ey)) with ey by lia.
    rewrite Z.sub_diag, !Z.mul_1_r. now apply Pos2Z.pos_lt_pos.
Qed.

Lemma binary_normalize_pos m e :
  0 < m -> -1074 <= e -> sf_pos (binary_normalize prec emax m e false).
Proof. intros Hm He. destruct m; try lia. now apply binary_round_pos. Qed.

Lemma SFsub_pos X Y :
  valid_binary X = true -> valid_binary Y = true -> SFltb X Y = true ->
  sf_pos (SFsub prec emax Y X).
Proof.
  intros HX HY Hlt. unfold SFltb in Hlt.
  destruct X as [sx|sx| |sx mx ex], Y as [sy|sy| |sy my ey];
    try discriminate Hlt; cbn [SFcompare] in Hlt.
  all: try (solve [ destruct sx; try discriminate Hlt; try exact I;
                    cbn; eapply canonical_emin, valid_finite; eauto
                  | destruct sy; try discriminate Hlt; try exact I;
                    cbn; eapply canonical_emin, valid_finite; eauto
                  | destruct sx, sy; try discriminate Hlt; exact I ]).
  (* both finite *)
  - pose proof (valid_finite _ _ _ HX) as Cx. pose proof (valid_finite _ _ _ HY) as Cy.
    pose proof (canonical_emin _ _ Cx) as Ex. pose proof (canonical_emin _ _ Cy) as Ey.
    cbn [SFsub]. apply binary_normalize_pos; [|lia].
    change (Pos.compare_cont Eq) with Pos.compare in Hlt.
    destruct sx, sy; cbn [cond_Zopp]; try discriminate Hlt.
    + (* both negative: |Y| < |X| *)
      assert (Hc : ey < ex \/ (ey = ex /\ (my < mx)%positive)).
      { destruct (Z.compare_spec ex ey) as [->|?|?]; try discriminate Hlt; [right|left; lia].
        split; auto. destruct (Pos.compare_spec mx my); try discriminate Hlt; auto. }
      pose proof (aligned_lt my ey mx ex Cy Cx Hc) as H. lia.
    + (* X negative, Y positive *) lia.
    + (* both positive *)
      assert (Hc : ex < ey \/ (ex = ey /\ (mx < my)%positive)).
      { destruct (Z.compare_spec ex ey) as [->|?|?]; try discriminate Hlt; [right|left; lia].
        split; auto. destruct (Pos.compare_spec mx my); try discriminate Hlt; auto. }
      pose proof (aligned_lt mx ex my ey Cx Cy Hc) as H.
      rewrite (Z.min_comm ex ey) in H. lia.
Qed.

(** A positive number times a number that is at least [1] is positive. *)
Lemma SFmul_pos x my ey :
  sf_pos x -> canonical (Zpos my) ey -> 2 ^ (- ey) <= Zpos my -> ey <= 0 ->
  sf_pos (SFmul prec emax x (S754_finite false my ey)).
Proof.
  intros Hx Cy Hy Hey0.
  destruct x as [sx|[]| |[] mx ex]; try contradiction; [exact I|].
  cbn [SFmul xorb sf_pos] in *.
  assert (Py : 0 < 2 ^ (- ey)) by (apply Z.pow_pos_nonneg; lia).
  assert (Hge : ge_at 1 (-1074) (Zpos (mx * my)) (ex + ey)).
  { rewrite Pos2Z.inj_mul.
    destruct (Z_le_gt_dec (ex + ey) (-1074)) as [Hle|Hgt].
    - left. split; [lia|]. rewrite Z.mul_1_l.
      assert (2 ^ (-1074 - (ex + ey)) <= 2 ^ (- ey)) by (apply Z.pow_le_mono_r; lia).
      nia.
    - right. split; [lia|].
      assert (0 < 2 ^ (ex + ey - -1074)) by (apply Z.pow_pos_nonneg; lia). nia. }
  apply binary_round_aux_pos; [lia|exact Hge].
Qed.

Lemma sf_pos_not_zero x : sf_pos (Prim2SF x) -> is_zero x = false.
Proof.
  intros H. unfold is_zero. rewrite FloatAxioms.eqb_spec.
  destruct (Prim2SF x) as [|[]| |[] m e]; try contradiction; reflexivity.
Qed.

Lemma sub_mul_1e6_pos a b :
  (a <? b)%float = true -> sf_pos (Prim2SF ((b - a) * 1e6)%float).
Proof.
  rewrite FloatAxioms.ltb_spec. intros Hlt.
  rewrite mul_spec, sub_spec. unfold SF64mul, SF64sub.
  change (Prim2SF 1e6) with (S754_finite false 8589934592000000 (-33)).
  apply SFmul_pos.
  - apply SFsub_pos; auto using Prim2SF_valid.
  - split; reflexivity.
  - vm_compute. discriminate.
  - lia.
Qed.

(** *** Results that stay finite *)

Lemma Zdigits2_succ_le m : 0 <= m -> Zdigits2 (m + 1) <= Zdigits2 m + 1.
Proof.
  intros Hm. pose proof (Zdigits2_nonneg m) as Hd.
  apply Zdigits2_small; [|lia].
  destruct (Z.eq_dec m 0) as [->|Hne]; [simpl; lia|].
  pose proof (Zdigits2_bounds m ltac:(lia)) as [_ Hu].
  rewrite Z.pow_add_r by lia. change (2 ^ 1) with 2. lia.
Qed.

Lemma Zdigits2_mul_le a b : 0 < a -> 0 < b -> Zdigits2 (a * b) <= Zdigits2 a + Zdigits2 b.
Proof.
  intros Ha Hb.
  pose proof (Zdigits2_bounds a Ha) as [_ Hua]. pose proof (Zdigits2_bounds b Hb) as [_ Hub].
  pose proof (Zdigits2_nonneg a). pose proof (Zdigits2_nonneg b).
  apply Zdigits2_small; [|lia]. rewrite Z.pow_add_r by lia. nia.
Qed.

(** The exponent after one shift, and the magnitude it leaves. *)
Lemma shr_fexp_exp m e l B :
  0 <= m -> e <= B -> Zdigits2 m + e - 53 <= B -> -1074 <= B ->
  snd (shr_fexp prec emax m e l) <= B /\
  (0 < shr_m (fst (shr_fexp prec emax m e l)) ->
   Zdigits2 (shr_m (fst (shr_fexp prec emax m e l))) + snd (shr_fexp prec emax m e l)
   = Zdigits2 m + e).
Proof.
  intros Hm He Hd HB.
  destruct (shr_fexp_spec m e l Hm) as (_ & Hnone & Hshift).
  set (k := fexp prec emax (Zdigits2 m + e) - e) in *.
  destruct (Z_le_gt_dec k 0) as [Hk|Hk].
  - destruct (Hnone Hk) as (-> & -> & _). auto.
  - destruct (Hshift ltac:(lia)) as (-> & -> & _).
    split; [unfold k; rewrite fexp_eq; lia|].
    intros Hpos. assert (Pk : 0 < 2 ^ k) by (apply Z.pow_pos_nonneg; lia).
    destruct (Z_lt_le_dec m (2 ^ k)) as [Hs|Hb].
    + rewrite Z.div_small in Hpos by lia. lia.
    + rewrite Zdigits2_div by lia. lia.
Qed.

Lemma bra_e_le mx ex lx B :
  0 <= mx -> ex <= B -> Zdigits2 mx + ex - 52 <= B -> -1074 <= B ->
  bra_e mx ex lx <= B.
Proof.
  intros Hmx He Hd HB.
  pose proof (bra_n_nonneg mx ex lx Hmx) as Hn0.
  unfold bra_e. unfold bra_n in *. cbv zeta in *.
  destruct (shr_fexp_exp mx ex lx B Hmx He ltac:(lia) HB) as [He1 Hmag].
  destruct (shr_fexp_spec mx ex lx Hmx) as (Hm1 & _ & _).
  set (r1 := shr_fexp prec emax mx ex lx) in *.
  destruct (round_nearest_even_spec (shr_m (fst r1)) (loc_of_shr_record (fst r1))) as [Hn _].
  set (n := round_nearest_even _ _) in *.
  apply shr_fexp_exp; auto.
  assert (Hdn : Zdigits2 n <= Zdigits2 (shr_m (fst r1)) + 1).
  { etransitivity; [|apply Zdigits2_succ_le; lia]. apply Zdigits2_mono. lia. }
  destruct (Z.eq_dec (shr_m (fst r1)) 0) as [Hz|Hnz].
  - rewrite Hz in Hdn. simpl in Hdn. lia.
  - rewrite <- Hmag in Hd by lia. lia.
Qed.

Lemma bra_e_ge mx ex lx : 0 <= mx -> ex <= bra_e mx ex lx.
Proof.
  intros Hmx. pose proof (bra_n_nonneg mx ex lx Hmx) as Hn0.
  unfold bra_e. unfold bra_n in *. cbv zeta in *.
  assert (S : forall m e l, 0 <= m -> e <= snd (shr_fexp prec emax m e l)).
  { intros m e l Hm. destruct (shr_fexp_spec m e l Hm) as (_ & Hnone & Hshift).
    destruct (Z_le_gt_dec (fexp prec emax (Zdigits2 m + e) - e) 0) as [Hk|Hk].
    - destruct (Hnone Hk) as (_ & -> & _). lia.
    - destruct (Hshift ltac:(lia)) as (_ & -> & _). lia. }
  etransitivity; [apply (S mx ex lx Hmx)|]. now apply S.
Qed.

Lemma decode_exp_le s m e B : 0 <= m -> e <= B -> B <= 971 -> sf_exp_le B (decode s m e).
Proof.
  intros Hm He HB. unfold decode. destruct m as [|p|p]; [exact I| |lia].
  destruct (Z.leb_spec e (emax - prec)) as [_|Hgt]; [exact He|].
  unfold emax, prec in Hgt. lia.
Qed.

Lemma binary_round_aux_exp_le s mx ex lx B :
  0 <= mx -> ex <= B -> Zdigits2 mx + ex - 52 <= B -> -1074 <= B -> B <= 971 ->
  sf_exp_le B (binary_round_aux prec emax s mx ex lx).
Proof.
  intros. rewrite binary_round_aux_eq. apply decode_exp_le; auto.
  - now apply bra_m_nonneg.
  - now apply bra_e_le.
Qed.

Lemma sf_exp_le_weaken B B' x : sf_exp_le B x -> B <= B' -> sf_exp_le B' x.
Proof. destruct x; simpl; auto. lia. Qed.

Lemma valid_digits s m e : valid_binary (S754_finite s m e) = true ->
  Zdigits2 (Zpos m) <= 53 /\ -1074 <= e.
Proof. intros H. now apply canonical_digits, (valid_finite s). Qed.

Lemma SFmul_exp_le x y Bx By :
  valid_binary x = true -> valid_binary y = true ->
  sf_exp_le Bx x -> sf_exp_le By y -> -1128 <= Bx + By -> Bx + By + 54 <= 971 ->
  sf_exp_le (Bx + By + 54) (SFmul prec emax x y).
Proof.
  intros Vx Vy Hx Hy HB HB'.
  destruct x as [sx|sx| |sx mx ex], y as [sy|sy| |sy my ey]; try contradiction; try exact I.
  cbn [SFmul sf_exp_le] in *.
  destruct (valid_digits _ _ _ Vx) as [Dx _]. destruct (valid_digits _ _ _ Vy) as [Dy _].
  pose proof (Zdigits2_mul_le (Zpos mx) (Zpos my) ltac:(lia) ltac:(lia)) as Hd.
  apply binary_round_aux_exp_le; try lia.
  rewrite Pos2Z.inj_mul. lia.
Qed.

Lemma SFdiv_exp_le x sy my ey Bx L :
  valid_binary x = true ->
  sf_exp_le Bx x -> L <= ey -> -1076 <= Bx - L -> Bx - L + 2 <= 971 ->
  sf_exp_le (Bx - L + 2) (SFdiv prec emax x (S754_finite sy my ey)).
Proof.
  intros Vx Hx HL HB HB'.
  destruct x as [sx|sx| |sx mx ex]; try contradiction; try exact I.
  cbn [SFdiv sf_exp_le] in *.
  destruct (valid_digits _ _ _ Vx) as [Dx _].
  unfold SFdiv_core_binary.
  set (e' := Z.min _ _).
  assert (He' : e' <= ex - ey) by (unfold e'; lia).
  set (m' := match _ with Z0 => _ | Zpos _ => _ | Zneg _ => _ end).
  assert (Hm' : m' = Zpos mx * 2 ^ (ex - ey - e')).
  { unfold m'. destruct (ex - ey - e') as [|p|p] eqn:E; try lia.
    rewrite Z.shiftl_mul_pow2 by lia. reflexivity. }
  pose proof (Z_div_mod m' (Zpos my) ltac:(lia)) as Hdm.
  destruct (Z.div_eucl m' (Zpos my)) as [q r]. destruct Hdm as [Hq Hr].
  assert (P : 0 < 2 ^ (ex - ey - e')) by (apply Z.pow_pos_nonneg; lia).
  assert (Hq0 : 0 <= q) by nia.
  apply binary_round_aux_exp_le; try lia.
  assert (Hdq : Zdigits2 q <= Zdigits2 (Zpos mx) + (ex - ey - e')).
  { rewrite <- Zdigits2_shift by lia. rewrite <- Hm'. apply Zdigits2_mono. split; [lia|]. nia. }
  lia.
Qed.

(** The conversion of a [uint64_t] has an exponent between [-52] and [12]. *)
Lemma decode_finite s m e :
  0 < m -> e <= 971 -> decode s m e = S754_finite s (Z.to_pos m) e.
Proof.
  intros Hm He. unfold decode. destruct m as [|q|q]; try lia.
  destruct (Z.leb_spec e (emax - prec)) as [_|Hgt]; [reflexivity|].
  unfold emax, prec in Hgt. lia.
Qed.

Lemma binary_round_exp p : Zpos p < 2 ^ 64 ->
  exists m e, binary_round prec emax false p 0 = S754_finite false m e /\ -52 <= e <= 12.
Proof.
  intros Hn. rewrite binary_round_eq. cbv zeta.
  destruct (shl_align_spec p 0 (fexp prec emax (Zpos (digits2_pos p) + 0))) as [He Hm].
  assert (Hd : 1 <= Zdigits2 (Z.pos p) <= 64).
  { split; [simpl; lia|]. apply Zdigits2_small; lia. }
  assert (Hf : fexp prec emax (Zpos (digits2_pos p) + 0) = Z.max (Zdigits2 (Zpos p) - 53) (-1074)).
  { rewrite Z.add_0_r. apply fexp_eq. }
  rewrite Hf in He, Hm |- *. clear Hf.
  generalize dependent (shl_align p 0 (Z.max (Zdigits2 (Z.pos p) - 53) (-1074))).
  intros [mz ez]. cbn [fst snd]. intros He Hm.
  assert (Hge : ez <= bra_e (Zpos mz) ez loc_Exact) by (apply bra_e_ge; lia).
  assert (Hle : bra_e (Zpos mz) ez loc_Exact <= 12).
  { apply bra_e_le; try lia. rewrite Hm, Zdigits2_shift by lia. lia. }
  assert (Hpos : 0 < bra_m (Zpos mz) ez loc_Exact).
  { apply (ge_at_pos 1 (-1074) _ (bra_e (Zpos mz) ez loc_Exact)); [lia|].
    apply bra_ge; [apply canonical_min|lia|]. apply ge_at_min; lia. }
  rewrite decode_finite by lia.
  eexists _, _. split; [reflexivity|lia].
Qed.

Lemma binary_normalize_exp n : 0 < n < 2 ^ 64 ->
  exists m e, binary_normalize prec emax n 0 false = S754_finite false m e /\ -52 <= e <= 12.
Proof.
  intros [Hn0 Hn]. destruct n as [|p|p]; try lia. now apply binary_round_exp.
Qed.

Lemma is_number_exp_le B x : sf_exp_le B (Prim2SF x) ->
  match Prim2SF x with S754_zero _ | S754_finite _ _ _ => true | _ => false end = true.
Proof. destruct (Prim2SF x); simpl; auto; contradiction. Qed.

End FloatFacts.

(* ================================================================= *)
(** ** Facts about texts *)

Module TextFacts.
Import Text.

Local Open Scope string_scope.

Lemma all_chars_app p s t :
  all_chars p (s ++ t) = all_chars p s && all_chars p t.
Proof. induction s as [|c s IH]; simpl; [reflexivity|]. now rewrite IH, andb_assoc. Qed.

Lemma all_chars_impl (p q : ascii -> bool) s :
  (forall c, p c = true -> q c = true) -> all_chars p s = true -> all_chars q s = true.
Proof.
  intros Hpq. induction s as [|c s IH]; simpl; [reflexivity|].
  intros H. apply andb_true_iff in H as [Hc Hs]. rewrite (Hpq c Hc), IH; auto.
Qed.

Lemma append_nil_r s : s ++ "" = s.
Proof. induction s as [|c s IH]; simpl; congruence. Qed.

Lemma append_assoc s t u : (s ++ t) ++ u = s ++ t ++ u.
Proof. induction s as [|c s IH]; simpl; congruence. Qed.

(** A piece free of the separator, followed by the separator, is a piece. *)
Lemma pieces_app_sep sep s rest :
  free sep s = true -> pieces sep (s ++ String sep rest) = s :: pieces sep rest.
Proof.
  unfold free. induction s as [|c s IH]; simpl; intros H.
  - now rewrite Ascii.eqb_refl.
  - apply andb_true_iff in H as [Hc Hs]. apply negb_true_iff in Hc.
    rewrite Hc, (IH Hs). reflexivity.
Qed.

Lemma pieces_free sep s :
  free sep s = true -> s <> "" -> pieces sep s = [s].
Proof.
  unfold free. induction s as [|c s IH]; simpl; intros H Hne; [congruence|].
  apply andb_true_iff in H as [Hc Hs]. apply negb_true_iff in Hc. rewrite Hc.
  destruct s as [|c' s']; [reflexivity|].
  rewrite (IH Hs) by discriminate. reflexivity.
Qed.

Lemma pieces_nonempty sep s : s <> "" -> pieces sep s <> [].
Proof.
  destruct s as [|c s]; [congruence|]. intros _. simpl.
  destruct (Ascii.eqb c sep); [discriminate|]. destruct (pieces sep s); discriminate.
Qed.

(** Text appended after a separator starts pieces of its own. *)
Lemma pieces_app sep s t :
  pieces sep ((s ++ String sep "") ++ t) =
  (pieces sep (s ++ String sep "") ++ pieces sep t)%list.
Proof.
  induction s as [|c s IH]; simpl.
  - rewrite Ascii.eqb_refl. reflexivity.
  - destruct (Ascii.eqb c sep); [now rewrite IH|].
    rewrite IH.
    pose proof (pieces_nonempty sep (s ++ String sep "")) as Hne.
    destruct (pieces sep (s ++ String sep "")) as [|p ps]; [|reflexivity].
    exfalso. apply Hne; [|reflexivity]. destruct s; discriminate.
Qed.

Lemma free_app c s t : free c (s ++ t) = free c s && free c t.
Proof. apply all_chars_app. Qed.

(** *** Decimal numerals *)

Lemma string_of_uint_digits u : all_chars is_digit (NilEmpty.string_of_uint u) = true.
Proof. induction u; simpl; auto. Qed.

Lemma dec_digits n : all_chars is_digit (Fmt.dec n) = true.
Proof.
  unfold Fmt.dec, NilZero.string_of_uint.
  destruct (N.to_uint (Z.to_N n)) eqn:E; try reflexivity;
    rewrite <- E; apply string_of_uint_digits.
Qed.

Lemma dec_nonempty n : Fmt.dec n <> "".
Proof.
  unfold Fmt.dec, NilZero.string_of_uint.
  destruct (N.to_uint (Z.to_N n)); simpl; discriminate.
Qed.

Lemma digit_single n : exists c, Fmt.digit n = String c "" /\ is_digit c = true.
Proof.
  unfold Fmt.digit.
  assert (H : 0 <= n mod 10 < 10) by (apply Z.mod_pos_bound; lia).
  assert (C : n mod 10 = 0 \/ n mod 10 = 1 \/ n mod 10 = 2 \/ n mod 10 = 3 \/ n mod 10 = 4 \/
              n mod 10 = 5 \/ n mod 10 = 6 \/ n mod 10 = 7 \/ n mod 10 = 8 \/ n mod 10 = 9) by lia.
  repeat (destruct C as [-> | C]); try rewrite C; eexists; split; reflexivity.
Qed.

Lemma digit_number_chars : forall c, is_digit c = true -> is_number_char c = true.
Proof. intros c H. unfold is_number_char. now rewrite H. Qed.

(** *** What [fixed2] writes *)

Lemma sign_text_number_chars s : all_chars is_number_char (Fmt.sign_text s) = true.
Proof. destruct s; reflexivity. Qed.

Lemma fixed_of_hundredths_number_chars s h :
  all_chars is_number_char (Fmt.fixed_of_hundredths s h) = true.
Proof.
  unfold Fmt.fixed_of_hundredths.
  destruct (digit_single (h / 10)) as (c1 & -> & H1).
  destruct (digit_single h) as (c2 & -> & H2).
  rewrite !all_chars_app, sign_text_number_chars.
  rewrite (all_chars_impl _ _ _ digit_number_chars (dec_digits _)).
  simpl. now rewrite (digit_number_chars _ H1), (digit_number_chars _ H2).
Qed.

Lemma fixed2_number_chars x : all_chars is_number_char (Fmt.fixed2 x) = true.
Proof.
  unfold Fmt.fixed2. destruct (Prim2SF x) as [s|s| |s m e]; simpl.
  - apply fixed_of_hundredths_number_chars.
  - destruct s; reflexivity.
  - reflexivity.
  - apply fixed_of_hundredths_number_chars.
Qed.

Lemma number_chars_free sep s :
  is_number_char sep = false -> all_chars is_number_char s = true -> free sep s = true.
Proof.
  intros Hsep. apply all_chars_impl. intros c Hc. apply negb_true_iff.
  destruct (Ascii.eqb_spec c sep); [congruence|reflexivity].
Qed.

Lemma fixed2_free_comma x : free Fmt.comma_char (Fmt.fixed2 x) = true.
Proof. apply number_chars_free; [reflexivity|apply fixed2_number_chars]. Qed.

Lemma fixed2_free_newline x : free Fmt.newline_char (Fmt.fixed2 x) = true.
Proof. apply number_chars_free; [reflexivity|apply fixed2_number_chars]. Qed.

Lemma app_nonempty s t : t <> "" -> s ++ t <> "".
Proof. destruct s; simpl; [auto|discriminate]. Qed.

Lemma fixed_of_hundredths_nonempty s h : Fmt.fixed_of_hundredths s h <> "".
Proof. unfold Fmt.fixed_of_hundredths. do 2 apply app_nonempty. discriminate. Qed.

Lemma fixed2_nonempty x : Fmt.fixed2 x <> "".
Proof.
  unfold Fmt.fixed2. destruct (Prim2SF x) as [s|s| |s m e]; simpl.
  - apply fixed_of_hundredths_nonempty.
  - destruct s; discriminate.
  - discriminate.
  - apply fixed_of_hundredths_nonempty.
Qed.

Lemma unsigned_two_decimals_app ip c1 c2 :
  ip <> "" -> all_chars is_digit ip = true -> is_digit c1 = true -> is_digit c2 = true ->
  unsigned_two_decimals (ip ++ "." ++ String c1 (String c2 "")) = true.
Proof.
  intros Hne Hd H1 H2. induction ip as [|c ip IH]; [congruence|].
  simpl in Hd. apply andb_true_iff in Hd as [Hc Hip].
  change (String c ip ++ "." ++ String c1 (String c2 ""))
    with (String c (ip ++ "." ++ String c1 (String c2 ""))).
  cbn [unsigned_two_decimals]. rewrite Hc. cbn [andb].
  destruct ip as [|c' ip'].
  - cbn. now rewrite H1, H2.
  - rewrite IH; [apply orb_true_r|discriminate|exact Hip].
Qed.

Lemma fixed_of_hundredths_two_decimals s h :
  two_decimals (Fmt.fixed_of_hundredths s h) = true.
Proof.
  unfold Fmt.fixed_of_hundredths.
  destruct (digit_single (h / 10)) as (c1 & -> & H1).
  destruct (digit_single h) as (c2 & -> & H2).
  pose proof (dec_digits (h / 100)) as Hd. pose proof (dec_nonempty (h / 100)) as Hne.
  pose proof (unsigned_two_decimals_app _ c1 c2 Hne Hd H1 H2) as Hu.
  destruct s; simpl Fmt.sign_text.
  - exact Hu.
  - simpl. destruct (Fmt.dec (h / 100)) as [|c ip] eqn:E; [congruence|].
    simpl in Hd. apply andb_true_iff in Hd as [Hc _].
    unfold two_decimals. cbn [append].
    assert (Ascii.eqb c "-" = false) as ->.
    { destruct (Ascii.eqb_spec c "-"); [subst; discriminate|reflexivity]. }
    exact Hu.
Qed.

(** A number is written with exactly two fractional digits. *)
Lemma fixed2_two_decimals x : is_number x = true -> two_decimals (Fmt.fixed2 x) = true.
Proof.
  unfold is_number, Fmt.fixed2. destruct (Prim2SF x) as [s|s| |s m e]; try discriminate;
    intros _; apply fixed_of_hundredths_two_decimals.
Qed.

End TextFacts.

(* ================================================================= *)
(** ** Facts about the program *)

Module ProgramFacts.
Import Text TextFacts FloatDefs FloatFacts.

(** *** The accumulation loop *)

Lemma wrap64_range n : 0 <= wrap64 n < 2 ^ 64.
Proof. unfold wrap64, two64. apply Z.mod_pos_bound. reflexivity. Qed.

Lemma wrap64_small n : 0 <= n < 2 ^ 64 -> wrap64 n = n.
Proof. intros H. unfold wrap64, two64. now apply Z.mod_small. Qed.

Lemma wrap64_add_l a b : wrap64 (wrap64 a + b) = wrap64 (a + b).
Proof. unfold wrap64. apply Z.add_mod_idemp_l. unfold two64. lia. Qed.

Lemma wrap64_idem a : wrap64 (wrap64 a) = wrap64 a.
Proof. unfold wrap64. apply Z.mod_mod. unfold two64. lia. Qed.

Lemma fold_accumulate_counters (field : FlowStats -> Z) (get : Totals -> Z) m :
  (forall acc kv, get (accumulate acc kv) = wrap64 (get acc + field (snd kv))) ->
  forall acc, wrap64 (get (fold_left accumulate m acc)) = wrap64 (get acc + total field m).
Proof.
  intros Hstep. induction m as [|kv m IH]; intros acc; simpl.
  - now rewrite Z.add_0_r.
  - rewrite IH, Hstep, wrap64_add_l. f_equal. lia.
Qed.

Lemma fold_accumulate_range (get : Totals -> Z) m :
  (forall acc kv, exists n, get (accumulate acc kv) = wrap64 n) ->
  forall acc, wrap64 (get acc) = get acc ->
  wrap64 (get (fold_left accumulate m acc)) = get (fold_left accumulate m acc).
Proof.
  intros Hstep. induction m as [|kv m IH]; intros acc Hacc; simpl; auto.
  apply IH. destruct (Hstep acc kv) as [n ->]. apply wrap64_idem.
Qed.

Lemma fold_accumulate_delay m : forall acc,
  sumDelaySec (fold_left accumulate m acc) =
  fold_left (fun a kv => (a + GetSeconds (delaySum (snd kv)))%float) m (sumDelaySec acc).
Proof. induction m as [|kv m IH]; intros acc; simpl; auto. Qed.

(** The loop leaves the wrapped sums of the counters and the running
    [double] sum of the delays. *)
Lemma flow_totals_spec m :
  rxTotal (flow_totals m) = wrap64 (total rxPackets m) /\
  txTotal (flow_totals m) = wrap64 (total txPackets m) /\
  lostTotal (flow_totals m) = wrap64 (total lostPackets m) /\
  sumDelaySec (flow_totals m) = delay_sum m.
Proof.
  unfold flow_totals.
  assert (R : forall get : Totals -> Z,
             (forall acc kv, exists n, get (accumulate acc kv) = wrap64 n) ->
             get totals0 = 0 ->
             get (fold_left accumulate m totals0) = wrap64 (get (fold_left accumulate m totals0))).
  { intros get Hstep H0. symmetry. apply fold_accumulate_range; auto. now rewrite H0. }
  split; [|split; [|split]].
  - rewrite (R rxTotal); [|intros; eexists; reflexivity|reflexivity].
    now rewrite (fold_accumulate_counters rxPackets rxTotal).
  - rewrite (R txTotal); [|intros; eexists; reflexivity|reflexivity].
    now rewrite (fold_accumulate_counters txPackets txTotal).
  - rewrite (R lostTotal); [|intros; eexists; reflexivity|reflexivity].
    now rewrite (fold_accumulate_counters lostPackets lostTotal).
  - apply fold_accumulate_delay.
Qed.

Lemma total_nonneg field m :
  Forall (fun kv => 0 <= field (snd kv)) m -> 0 <= total field m.
Proof. induction 1; simpl; lia. Qed.

Lemma total_perm field m m' : Permutation m m' -> total field m = total field m'.
Proof. induction 1; simpl; lia. Qed.

Lemma total_records field m :
  total field m = fold_right (fun st acc => field st + acc) 0 (map snd m).
Proof. induction m as [|kv m IH]; simpl; [reflexivity|]. now rewrite IH. Qed.

Lemma total_perm_records field m m' :
  Permutation (map snd m) (map snd m') -> total field m = total field m'.
Proof.
  rewrite !total_records. generalize (map snd m) (map snd m').
  induction 1; simpl; lia.
Qed.


(** *** Divisions *)

Lemma fdiv_some x y : is_zero y = false -> Checked.fdiv x y = Some (x / y)%float.
Proof. unfold Checked.fdiv. now intros ->. Qed.

Lemma checked_avgDelayMs t : 0 <= rxTotal t < 2 ^ 64 ->
  Checked.avgDelayMs t = Some (avgDelayMs t).
Proof.
  intros H. unfold Checked.avgDelayMs, avgDelayMs.
  destruct (Z.ltb_spec 0 (rxTotal t)); [|reflexivity].
  rewrite fdiv_some; [reflexivity|].
  apply is_zero_false, double_of_uint64_pos_finite. lia.
Qed.

Lemma checked_lossPct t : 0 <= txTotal t < 2 ^ 64 ->
  Checked.lossPct t = Some (lossPct t).
Proof.
  intros H. unfold Checked.lossPct, lossPct.
  destruct (Z.ltb_spec 0 (txTotal t)); [|reflexivity].
  rewrite fdiv_some; [reflexivity|].
  apply is_zero_false, double_of_uint64_pos_finite. lia.
Qed.

(** *** Signs and magnitudes of the metrics *)

Lemma Prim2SF_8 : Prim2SF 8 = S754_finite false 4503599627370496 (-49).
Proof. reflexivity. Qed.

Lemma Prim2SF_100 : Prim2SF 100 = int_sf 100.
Proof. reflexivity. Qed.

Lemma Prim2SF_1000 : Prim2SF 1000 = S754_finite false 8796093022208000 (-43).
Proof. reflexivity. Qed.

Lemma Prim2SF_9e6 : Prim2SF ((10 - 1) * 1e6)%float = S754_finite false 4831838208000000 (-29).
Proof. reflexivity. Qed.


Lemma throughput_number rx : 0 <= rx < 2 ^ 64 ->
  is_number (throughputMbps rx 1 10) = true.
Proof.
  intros Hrx. unfold is_number. apply (is_number_exp_le 48).
  unfold throughputMbps. cbv zeta.
  rewrite div_spec, Prim2SF_9e6. unfold SF64div.
  apply (SFdiv_exp_le _ _ _ _ 17 (-29)); try lia; [apply Prim2SF_valid|].
  rewrite mul_spec, Prim2SF_8. unfold SF64mul.
  apply (SFmul_exp_le _ _ 12 (-49)); try lia.
  - apply Prim2SF_valid.
  - reflexivity.
  - rewrite Prim2SF_double_of_uint64.
    destruct (Z.eq_dec rx 0) as [->|Hne]; [exact I|].
    destruct (binary_normalize_exp rx ltac:(lia)) as (m & e & -> & He). simpl. lia.
  - simpl. lia.
Qed.

(** With [appStart < appStop] the divisor of the throughput is not a zero. *)
Lemma throughput_checked rx a b : (a <? b)%float = true ->
  Checked.throughputMbps rx a b = Some (throughputMbps rx a b).
Proof.
  intros Hab. unfold Checked.throughputMbps, throughputMbps. cbv zeta.
  apply fdiv_some, sf_pos_not_zero. now apply sub_mul_1e6_pos.
Qed.

Lemma delay_sum_nonneg m :
  Forall (fun kv => (0 <=? GetSeconds (delaySum (snd kv)))%float = true) m ->
  sf_nonneg (Prim2SF (delay_sum m)).
Proof.
  unfold delay_sum. intros H.
  assert (G : forall acc, sf_nonneg (Prim2SF acc) ->
    sf_nonneg (Prim2SF (fold_left
      (fun a kv => (a + GetSeconds (delaySum (snd kv)))%float) m acc))).
  { induction H as [|kv m Hkv _ IH]; intros acc Hacc; simpl; auto.
    apply IH. rewrite add_spec. apply SFadd_nonneg; auto. now apply leb_zero. }
  apply G. exact I.
Qed.

Lemma avgDelay_nonneg t :
  sf_nonneg (Prim2SF (sumDelaySec t)) -> 0 <= rxTotal t < 2 ^ 64 ->
  (0 <=? avgDelayMs t)%float = true.
Proof.
  intros Hs Hrx. unfold avgDelayMs.
  destruct (Z.ltb_spec 0 (rxTotal t)); [|reflexivity].
  apply leb_zero. rewrite mul_spec, div_spec, Prim2SF_1000.
  apply SFmul_nonneg; [|exact I].
  pose proof (double_of_uint64_pos_finite (rxTotal t) ltac:(lia)) as Hp.
  apply SFdiv_nonneg; auto.
Qed.



Lemma loss_number t : 0 <= lostTotal t < 2 ^ 64 -> 0 <= txTotal t < 2 ^ 64 ->
  is_number (lossPct t) = true.
Proof.
  intros Hl Ht. unfold is_number, lossPct.
  destruct (Z.ltb_spec 0 (txTotal t)) as [Hpos|]; [|reflexivity].
  apply (is_number_exp_le 74).
  rewrite div_spec. unfold SF64div.
  rewrite (Prim2SF_double_of_uint64 (txTotal t)).
  destruct (binary_normalize_exp (txTotal t) ltac:(lia)) as (m & e & -> & He).
  apply (SFdiv_exp_le _ _ _ _ 20 (-52)); try lia; [apply Prim2SF_valid|].
  rewrite mul_spec. unfold SF64mul.
  apply (SFmul_exp_le _ _ (-46) 12); try lia; try apply Prim2SF_valid.
  - change (Prim2SF 100) with (S754_finite false 7036874417766400 (-46)). simpl. lia.
  - rewrite Prim2SF_double_of_uint64.
    destruct (Z.eq_dec (lostTotal t) 0) as [->|Hne]; [exact I|].
    destruct (binary_normalize_exp (lostTotal t) ltac:(lia)) as (m' & e' & -> & He'). simpl. lia.
Qed.

(** *** The file *)

Lemma scenarios_text eng a b c n ds : forall i f,
  Csv.text (scenarios eng a b c n i ds f) =
  (Csv.text f ++ cat (map Csv.row (results eng a b c n i ds)))%string.
Proof.
  induction ds as [|d ds IH]; intros i f; simpl.
  - now rewrite append_nil_r.
  - rewrite IH. unfold scenario at 1. destruct f as [old|]; simpl.
    + now rewrite append_assoc.
    + reflexivity.
Qed.

Lemma scenarios_good eng a b c n ds : forall i f,
  Csv.good f = true -> Csv.good (scenarios eng a b c n i ds f) = true.
Proof.
  induction ds as [|d ds IH]; intros i f Hf; simpl; auto.
  apply IH. destruct f; [reflexivity|discriminate].
Qed.

Lemma results_length eng a b c n ds : forall i,
  List.length (results eng a b c n i ds) = List.length ds.
Proof. induction ds as [|d ds IH]; intros i; simpl; auto. Qed.

Lemma results_distance eng a b c n ds : forall i,
  map distance (results eng a b c n i ds) = ds.
Proof. induction ds as [|d ds IH]; intros i; simpl; [reflexivity|]. now rewrite IH. Qed.

Lemma row_line_free_newline r : free Fmt.newline_char (Csv.row_line r) = true.
Proof.
  unfold Csv.row_line. rewrite !free_app, !fixed2_free_newline. reflexivity.
Qed.

Lemma lines_rows rs : lines (cat (map Csv.row rs)) = map Csv.row_line rs.
Proof.
  induction rs as [|r rs IH]; [reflexivity|].
  simpl. unfold lines, Csv.row, Fmt.newline in *.
  rewrite append_assoc. simpl append.
  rewrite pieces_app_sep by apply row_line_free_newline.
  now rewrite IH.
Qed.

Lemma lines_header_rows rs :
  lines (Csv.header ++ cat (map Csv.row rs)) = Csv.header_line :: map Csv.row_line rs.
Proof.
  unfold lines, Csv.header, Fmt.newline. rewrite append_assoc. simpl append at 2.
  rewrite pieces_app_sep by reflexivity. f_equal. apply lines_rows.
Qed.

(** The four fields of a row. *)
Lemma fields_row_line r :
  fields (Csv.row_line r) =
  [Fmt.fixed2 (distance r); Fmt.fixed2 (throughput r);
   Fmt.fixed2 (avgDelay r); Fmt.fixed2 (loss r)].
Proof.
  unfold fields, Csv.row_line, Fmt.comma.
  change (String Fmt.comma_char "" ++ ?x)%string with (String Fmt.comma_char x).
  rewrite pieces_app_sep by apply fixed2_free_comma. f_equal.
  cbn [append].
  rewrite pieces_app_sep by apply fixed2_free_comma. f_equal.
  cbn [append].
  rewrite pieces_app_sep by apply fixed2_free_comma. f_equal.
  apply pieces_free; [apply fixed2_free_comma|apply fixed2_nonempty].
Qed.

(** A row is not the header. *)
Lemma row_line_not_header r : Csv.row_line r <> Csv.header_line.
Proof.
  intros H.
  assert (Hc : all_chars (fun c => is_number_char c || Ascii.eqb c Fmt.comma_char)
                 (Csv.row_line r) = true).
  { unfold Csv.row_line. rewrite !all_chars_app.
    assert (Hf : forall x, all_chars (fun c => is_number_char c || Ascii.eqb c Fmt.comma_char)
                   (Fmt.fixed2 x) = true).
    { intros x. apply (all_chars_impl is_number_char); [|apply fixed2_number_chars].
      intros c ->. reflexivity. }
    rewrite !Hf. reflexivity. }
  rewrite H in Hc. discriminate Hc.
Qed.

End ProgramFacts.

(* ================================================================= *)
(** ** Properties of the specification *)

Import Text TextFacts FloatDefs FloatFacts ProgramFacts.

(** C1. For every scenario with [appStart < appStop], the throughput of the
    result row is [receivedBytes * 8 / ((appStop - appStart) * 1e6)] computed
    in [double], where [receivedBytes] is what the sink reports; the divisor
    is never a zero; it is the second field of the row.  With 1,250,000
    bytes, [appStart = 1.0] and [appStop = 10.0] it is the value of
    [1250000*8/(9*1e6)], the [double] nearest to [10/9], written [1.11]. *)
Theorem C1_throughput :
  forall (run : EngineRun) (d appStart appStop : float),
    (appStart <? appStop)%float = true ->
    let rx := totalRx_of (sink run) in
    let r := scenario_result d appStart appStop run in
    throughput r = (double_of_uint64 rx * 8 / ((appStop - appStart) * 1e6))%float
    /\ (forall p, sink run = Some p -> 0 <= GetTotalRx p < 2 ^ 64 -> rx = GetTotalRx p)
    /\ Checked.throughputMbps rx appStart appStop = Some (throughput r)
    /\ nth 1 (fields (Csv.row_line r)) ""%string = Fmt.fixed2 (throughput r)
    /\ throughputMbps 1250000 1 10 = (1250000 * 8 / (9 * 1e6))%float
    /\ Prim2SF (throughputMbps 1250000 1 10) = S754_finite false 5003999585967218 (-52)
    /\ 2 * Z.abs (9 * 5003999585967218 - 10 * 2 ^ 52) < 9
    /\ Fmt.fixed2 (throughputMbps 1250000 1 10) = "1.11"%string.
Proof.
  intros run d a b Hab rx r.
  split; [reflexivity|]. split.
  { intros p Hp Hr. unfold rx. rewrite Hp. simpl. now apply wrap64_small. }
  split; [now apply throughput_checked|].
  split; [now rewrite fields_row_line|].
  repeat split; vm_compute; reflexivity.
Qed.

Lemma C1_throughput_witness :
  (1 <? 10)%float = true /\
  Checked.throughputMbps 1250000 1 10 = Some (throughputMbps 1250000 1 10).
Proof.
  split; [reflexivity|].
  exact (proj1 (proj2 (proj2
    (C1_throughput (Sample.run_of 1250000 Sample.two_flows) 5 1 10 eq_refl)))).
Defined.

(** C2. For every collection of flow records (counters not negative, their
    sum within [uint64_t]), the average delay is the [double] sum of the
    delay sums divided by the total of [rxPackets], times 1000; it is [0]
    when that total is [0]; and no division by a zero takes place. *)
Theorem C2_average_delay :
  forall m : list (FlowId * FlowStats),
    Forall (fun kv => 0 <= rxPackets (snd kv)) m ->
    total rxPackets m < 2 ^ 64 ->
    let t := flow_totals m in
    avgDelayMs t =
      (if total rxPackets m =? 0 then 0%float
       else (delay_sum m / double_of_uint64 (total rxPackets m) * 1000)%float)
    /\ (total rxPackets m = 0 -> avgDelayMs t = 0%float)
    /\ Checked.avgDelayMs t = Some (avgDelayMs t).
Proof.
  intros m Hnn Hlt t.
  destruct (flow_totals_spec m) as (Hrx & _ & _ & Hd). fold t in Hrx, Hd.
  pose proof (total_nonneg rxPackets m Hnn) as H0.
  rewrite wrap64_small in Hrx by lia.
  assert (E : avgDelayMs t =
    (if total rxPackets m =? 0 then 0%float
     else (delay_sum m / double_of_uint64 (total rxPackets m) * 1000)%float)).
  { unfold avgDelayMs. rewrite Hrx, Hd.
    destruct (Z.ltb_spec 0 (total rxPackets m)), (Z.eqb_spec (total rxPackets m) 0);
      try reflexivity; lia. }
  split; [exact E|]. split.
  - intros Hz. rewrite E, Hz. reflexivity.
  - apply checked_avgDelayMs. rewrite Hrx. lia.
Qed.

Lemma C2_average_delay_witness :
  total rxPackets Sample.idle_flows < 2 ^ 64 /\
  avgDelayMs (flow_totals Sample.idle_flows) = 0%float.
Proof.
  split; [reflexivity|].
  refine (proj1 (proj2 (C2_average_delay Sample.idle_flows _ _)) eq_refl).
  - repeat constructor; simpl; lia.
  - reflexivity.
Defined.

(** C3. For every collection of flow records (counters not negative, their
    sums within [uint64_t]), the loss percentage is
    [100 * total lost / total sent] computed in [double], and [0] when
    nothing was sent; 100 packets sent and 5 lost give exactly [5.0]. *)
Theorem C3_loss_percent :
  forall m : list (FlowId * FlowStats),
    Forall (fun kv => 0 <= txPackets (snd kv) /\ 0 <= lostPackets (snd kv)) m ->
    total txPackets m < 2 ^ 64 ->
    total lostPackets m < 2 ^ 64 ->
    let t := flow_totals m in
    lossPct t =
      (if total txPackets m =? 0 then 0%float
       else (100 * double_of_uint64 (total lostPackets m)
             / double_of_uint64 (total txPackets m))%float)
    /\ (total txPackets m = 0 -> lossPct t = 0%float)
    /\ (total txPackets m = 100 -> total lostPackets m = 5 -> lossPct t = 5%float)
    /\ Checked.lossPct t = Some (lossPct t).
Proof.
  intros m Hnn Htx Hlost t.
  destruct (flow_totals_spec m) as (_ & Ht & Hl & _). fold t in Ht, Hl.
  assert (Hnt : 0 <= total txPackets m).
  { apply total_nonneg. eapply Forall_impl; [|exact Hnn]. simpl. tauto. }
  assert (Hnl : 0 <= total lostPackets m).
  { apply total_nonneg. eapply Forall_impl; [|exact Hnn]. simpl. tauto. }
  rewrite wrap64_small in Ht, Hl by lia.
  assert (E : lossPct t =
    (if total txPackets m =? 0 then 0%float
     else (100 * double_of_uint64 (total lostPackets m)
           / double_of_uint64 (total txPackets m))%float)).
  { unfold lossPct. rewrite Ht, Hl.
    destruct (Z.ltb_spec 0 (total txPackets m)), (Z.eqb_spec (total txPackets m) 0);
      try reflexivity; lia. }
  split; [exact E|]. split; [|split].
  - intros Hz. rewrite E, Hz. reflexivity.
  - intros H100 H5. rewrite E, H100, H5. vm_compute. reflexivity.
  - apply checked_lossPct. rewrite Ht. lia.
Qed.

Lemma C3_loss_percent_witness :
  total txPackets Sample.two_flows < 2 ^ 64 /\
  total lostPackets Sample.two_flows < 2 ^ 64 /\
  lossPct (flow_totals Sample.two_flows) = 5%float.
Proof.
  split; [reflexivity|]. split; [reflexivity|].
  refine (proj1 (proj2 (proj2 (C3_loss_percent Sample.two_flows _ _ _))) eq_refl eq_refl).
  - repeat constructor; simpl; lia.
  - reflexivity.
  - reflexivity.
Defined.

(** C4. For any list of distances, the campaign appends exactly one row per
    distance to the file, after what was there and after the header it may
    have written, in the order of the distances: row [k] starts with
    distance [k]; on a fresh file the lines are the header and these rows. *)
Theorem C4_rows_in_order :
  forall (Simulator_Run : nat -> Config -> EngineRun)
         (appStart appStop simStop : float) (stationCount : nat)
         (ds : list float) (f : Csv.File),
    let rs := results Simulator_Run appStart appStop simStop stationCount 0 ds in
    let f' := campaign Simulator_Run appStart appStop simStop stationCount ds f in
    Csv.text f' = (Csv.text (WriteCsvHeaderIfNeeded f) ++ cat (map Csv.row rs))%string
    /\ lines (cat (map Csv.row rs)) = map Csv.row_line rs
    /\ List.length (map Csv.row_line rs) = List.length ds
    /\ map distance rs = ds
    /\ map (fun l => hd ""%string (fields l)) (map Csv.row_line rs) = map Fmt.fixed2 ds
    /\ lines (Csv.text
                (campaign Simulator_Run appStart appStop simStop stationCount ds None))
       = Csv.header_line :: map Csv.row_line rs.
Proof.
  intros eng a b c n ds f rs f'.
  assert (Ht : Csv.text f' =
               (Csv.text (WriteCsvHeaderIfNeeded f) ++ cat (map Csv.row rs))%string).
  { unfold f', campaign. apply scenarios_text. }
  split; [exact Ht|]. split; [apply lines_rows|].
  split; [rewrite length_map; apply results_length|].
  split; [apply results_distance|]. split.
  - transitivity (map Fmt.fixed2 (map distance rs)).
    + rewrite !map_map. apply map_ext. intros r. now rewrite fields_row_line.
    + unfold rs. now rewrite results_distance.
  - unfold campaign. rewrite scenarios_text. apply lines_header_rows.
Qed.

(** C5. Writing the header is idempotent: an absent file gets the header,
    an existing file is left as it is, and a second call changes nothing.
    Two campaigns in a row on a fresh file leave the header once, followed
    by the rows of the first and of the second campaign, [2N] rows. *)
Theorem C5_header_idempotent :
  WriteCsvHeaderIfNeeded None = Some Csv.header
  /\ (forall text, WriteCsvHeaderIfNeeded (Some text) = Some text)
  /\ (forall f, WriteCsvHeaderIfNeeded (WriteCsvHeaderIfNeeded f) = WriteCsvHeaderIfNeeded f)
  /\ (forall (run1 run2 : nat -> Config -> EngineRun)
             (appStart appStop simStop : float) (stationCount : nat) (ds : list float),
        let rs1 := results run1 appStart appStop simStop stationCount 0 ds in
        let rs2 := results run2 appStart appStop simStop stationCount 0 ds in
        let f1 := campaign run1 appStart appStop simStop stationCount ds None in
        let f2 := campaign run2 appStart appStop simStop stationCount ds f1 in
        lines (Csv.text f2) =
          Csv.header_line :: (map Csv.row_line rs1 ++ map Csv.row_line rs2)%list
        /\ count_occ string_dec (lines (Csv.text f2)) Csv.header_line = 1%nat
        /\ List.length (tl (lines (Csv.text f2))) = (2 * List.length ds)%nat).
Proof.
  split; [reflexivity|]. split; [reflexivity|]. split; [intros [text|]; reflexivity|].
  intros run1 run2 a b c n ds rs1 rs2 f1 f2.
  assert (Hgood : Csv.good f1 = true).
  { unfold f1, campaign. now apply scenarios_good. }
  assert (Ht1 : Csv.text f1 = (Csv.header ++ cat (map Csv.row rs1))%string).
  { unfold f1, campaign. now rewrite scenarios_text. }
  assert (Ht2 : Csv.text f2 = (Csv.text f1 ++ cat (map Csv.row rs2))%string).
  { unfold f2, campaign. rewrite scenarios_text.
    destruct f1; [reflexivity|discriminate]. }
  assert (Hl : lines (Csv.text f2) =
               Csv.header_line :: (map Csv.row_line rs1 ++ map Csv.row_line rs2)%list).
  { rewrite Ht2, Ht1, append_assoc.
    replace (cat (map Csv.row rs1) ++ cat (map Csv.row rs2))%string
      with (cat (map Csv.row (rs1 ++ rs2))).
    - rewrite lines_header_rows, map_app. reflexivity.
    - rewrite map_app. generalize (map Csv.row rs1) as l1. intros l1.
      induction l1 as [|x l1 IH]; simpl; [reflexivity|]. now rewrite IH, append_assoc. }
  split; [exact Hl|]. rewrite Hl. split.
  - simpl. destruct (string_dec Csv.header_line Csv.header_line) as [_|Hne]; [|congruence].
    f_equal. rewrite <- map_app. apply count_occ_not_In. intros Hin.
    apply in_map_iff in Hin as (r & Hr & _). now apply row_line_not_header in Hr.
  - simpl. rewrite length_app, !length_map. unfold rs1, rs2.
    rewrite !results_length. lia.
Qed.

(** The order in which a [std::map] is visited is fixed by its entries. *)
Lemma std_map_unique m : forall m',
  is_std_map m -> is_std_map m' -> Permutation m m' -> m = m'.
Proof.
  unfold is_std_map.
  induction m as [|x l IH]; intros m' Hs Hs' Hp.
  - apply Permutation_nil in Hp. now subst.
  - destruct m' as [|y l'].
    { apply Permutation_sym, Permutation_nil in Hp. discriminate. }
    apply StronglySorted_inv in Hs as [Hsl Hx].
    apply StronglySorted_inv in Hs' as [Hsl' Hy].
    rewrite Forall_forall in Hx, Hy.
    assert (Exy : x = y).
    { assert (Hin : In x (y :: l')) by (eapply Permutation_in; [exact Hp|now left]).
      assert (Hin' : In y (x :: l)).
      { eapply Permutation_in; [apply Permutation_sym; exact Hp|now left]. }
      destruct Hin as [->|Hin]; [reflexivity|].
      destruct Hin' as [->|Hin']; [reflexivity|].
      pose proof (Hy _ Hin). pose proof (Hx _ Hin'). unfold key_lt in *. lia. }
    subst y. f_equal. apply IH; auto. now apply Permutation_cons_inv in Hp.
Qed.

(** C6, as stated, fails: a [double] sum depends on the order of its terms.
    Two [std::map]s that hold the same three flow records, with delay sums
    0.1 s, 0.2 s and 0.3 s, under flow ids given the other way round are
    visited in opposite orders and give different average delays. *)
Lemma C6_order_counterexample :
  ~ (forall (s : option PacketSink) (d : float) (m m' : list (FlowId * FlowStats)),
       is_std_map m -> is_std_map m' ->
       Permutation (map snd m) (map snd m') ->
       scenario_result d 1 10 {| sink := s; stats := m |}
       = scenario_result d 1 10 {| sink := s; stats := m' |}).
Proof.
  intros H.
  assert (Hs : forall a b c : FlowStats, is_std_map [(1, a); (2, b); (3, c)]).
  { intros a b c. unfold is_std_map.
    repeat constructor; unfold key_lt; simpl; lia. }
  specialize (H None 5%float Sample.three_flows Sample.three_flows_renumbered
                (Hs _ _ _) (Hs _ _ _)).
  assert (Hp : Permutation (map snd Sample.three_flows)
                           (map snd Sample.three_flows_renumbered)).
  { change (map snd Sample.three_flows_renumbered)
      with (rev (map snd Sample.three_flows)). apply Permutation_rev. }
  specialize (H Hp).
  apply (f_equal (fun r => Prim2SF (avgDelay r))) in H.
  vm_compute in H. discriminate H.
Qed.

(** C6, amended.  For every reordering of the flow records (under the same
    flow ids or others) the distance, the throughput, the loss percentage
    and the three packet totals are the same; the average delay, and so the
    whole result, is the same whenever the two orders give the same [double]
    sum of delays, as they do for the same entries in a [std::map], which
    are always visited in ascending key order. *)
Theorem C6_order_amended :
  forall (s : option PacketSink) (d appStart appStop : float)
         (m m' : list (FlowId * FlowStats)),
    Permutation (map snd m) (map snd m') ->
    let r := scenario_result d appStart appStop {| sink := s; stats := m |} in
    let r' := scenario_result d appStart appStop {| sink := s; stats := m' |} in
    distance r = distance r'
    /\ throughput r = throughput r'
    /\ loss r = loss r'
    /\ rxTotal (flow_totals m) = rxTotal (flow_totals m')
    /\ txTotal (flow_totals m) = txTotal (flow_totals m')
    /\ lostTotal (flow_totals m) = lostTotal (flow_totals m')
    /\ (delay_sum m = delay_sum m' -> r = r')
    /\ (Permutation m m' -> is_std_map m -> is_std_map m' -> r = r').
Proof.
  intros s d a b m m' Hp r r'.
  destruct (flow_totals_spec m) as (Hrx & Htx & Hl & Hd).
  destruct (flow_totals_spec m') as (Hrx' & Htx' & Hl' & Hd').
  assert (Erx : rxTotal (flow_totals m) = rxTotal (flow_totals m')).
  { now rewrite Hrx, Hrx', (total_perm_records rxPackets m m' Hp). }
  assert (Etx : txTotal (flow_totals m) = txTotal (flow_totals m')).
  { now rewrite Htx, Htx', (total_perm_records txPackets m m' Hp). }
  assert (El : lostTotal (flow_totals m) = lostTotal (flow_totals m')).
  { now rewrite Hl, Hl', (total_perm_records lostPackets m m' Hp). }
  assert (Eloss : loss r = loss r').
  { unfold r, r', scenario_result. cbn [loss stats]. unfold lossPct. now rewrite Etx, El. }
  repeat (split; [first [reflexivity | assumption]|]).
  split.
  - intros Hsum. unfold r, r', scenario_result. cbn [stats sink]. f_equal.
    + unfold avgDelayMs. now rewrite Erx, Hd, Hd', Hsum.
    + exact Eloss.
  - intros Hpm Hs Hs'. unfold r, r'. now rewrite (std_map_unique m m' Hs Hs' Hpm).
Qed.

Lemma C6_order_amended_witness :
  Permutation (map snd Sample.two_flows) (map snd (rev Sample.two_flows)) /\
  loss (scenario_result 5 1 10 (Sample.no_sink Sample.two_flows))
  = loss (scenario_result 5 1 10 (Sample.no_sink (rev Sample.two_flows))).
Proof.
  split; [apply Permutation_map, Permutation_rev|].
  exact (proj1 (proj2 (proj2
    (C6_order_amended None 5 1 10 Sample.two_flows (rev Sample.two_flows)
       (Permutation_map snd (Permutation_rev _)))))).
Defined.




(** Why the amended C7 bounds the number of packets: beyond [2^53 / 100]
    the product [100.0 * lost] is rounded, and with as many packets lost
    as sent the quotient can exceed 100. *)
Example loss_above_100_by_rounding :
  (lossPct {| sumDelaySec := 0; rxTotal := 0;
              txTotal := 387105500571059; lostTotal := 387105500571059 |}
   <=? 100)%float = false.
Proof. vm_compute. reflexivity. Qed.

Lemma distances_numbers : Forall (fun d => is_number d = true) distances.
Proof. repeat constructor. Qed.

(** C8. Every row the campaign appends, for a distance of its list and an
    average delay that is a number, is one line: four fields separated by
    commas and ended by a newline, which are the distance, the throughput,
    the average delay and the loss percentage, each written as a decimal
    numeral with exactly two fractional digits.  The header a fresh file
    gets is the line [distance_m,throughput_mbps,avg_delay_ms,packet_loss_percent]. *)
Theorem C8_row_format :
  forall (Simulator_Run : nat -> Config -> EngineRun) (i : nat) (d : float) (f : Csv.File),
    In d distances ->
    let r := scenario_row Simulator_Run 1 10 12 stations i d in
    is_number (avgDelay r) = true ->
    Csv.text (scenario Simulator_Run 1 10 12 stations i d f)
      = (Csv.text f ++ Csv.row_line r ++ Fmt.newline)%string
    /\ lines (Csv.row_line r ++ Fmt.newline) = [Csv.row_line r]
    /\ fields (Csv.row_line r)
       = [Fmt.fixed2 (distance r); Fmt.fixed2 (throughput r);
          Fmt.fixed2 (avgDelay r); Fmt.fixed2 (loss r)]
    /\ distance r = d
    /\ Forall (fun field => two_decimals field = true) (fields (Csv.row_line r))
    /\ lines (Csv.text (WriteCsvHeaderIfNeeded None)) = [Csv.header_line]
    /\ fields Csv.header_line
       = ["distance_m"; "throughput_mbps"; "avg_delay_ms"; "packet_loss_percent"]%string.
Proof.
  intros eng i d f Hd r Hdelay.
  split. { unfold scenario. fold r. destruct f; reflexivity. }
  split.
  { unfold lines, Fmt.newline. now rewrite pieces_app_sep by apply row_line_free_newline. }
  split; [apply fields_row_line|]. split; [reflexivity|]. split.
  - rewrite fields_row_line.
    pose proof distances_numbers as Hn. rewrite Forall_forall in Hn.
    destruct (flow_totals_spec (stats (eng i (configure d 1 10 12 stations))))
      as (_ & Htx & Hl & _).
    repeat constructor; apply fixed2_two_decimals.
    + now apply Hn.
    + apply throughput_number. destruct (sink _); simpl; [apply wrap64_range|].
      split; [lia|reflexivity].
    + exact Hdelay.
    + apply loss_number; rewrite ?Htx, ?Hl; apply wrap64_range.
  - split; reflexivity.
Qed.

Lemma C8_row_format_witness :
  In 5%float distances /\
  fields (Csv.row_line (scenario_result 5 1 10 (Sample.run_of 1250000 Sample.two_flows)))
  = ["5.00"; "1.11"; "7.89"; "5.00"]%string.
Proof.
  split; [now left|].
  refine (eq_trans (proj1 (proj2 (proj2
    (C8_row_format (Sample.engine (Sample.run_of 1250000 Sample.two_flows)) 0 5 None _ _)))) _).
  - now left.
  - reflexivity.
  - vm_compute. reflexivity.
Defined.



(** C10. If the cast of the application on the access point gives no
    packet sink, [totalRx] stays [0]: the throughput is computed, without a
    division by a zero, as [0], and written as [0.00]. *)
Theorem C10_null_sink :
  forall (run : EngineRun) (d appStart appStop : float),
    sink run = None ->
    (appStart <? appStop)%float = true ->
    let r := scenario_result d appStart appStop run in
    totalRx_of (sink run) = 0
    /\ throughput r = 0%float
    /\ Checked.throughputMbps (totalRx_of (sink run)) appStart appStop = Some 0%float
    /\ nth 1 (fields (Csv.row_line r)) ""%string = "0.00"%string.
Proof.
  intros run d a b Hs Hab r.
  assert (Hrx : totalRx_of (sink run) = 0) by now rewrite Hs.
  assert (Ht : throughput r = 0%float).
  { unfold r, scenario_result. cbn [throughput]. rewrite Hrx.
    unfold throughputMbps. cbv zeta.
    apply Prim2SF_inj. rewrite div_spec.
    pose proof (sub_mul_1e6_pos a b Hab) as Hp.
    change (Prim2SF (double_of_uint64 0 * 8)) with (S754_zero false).
    change (Prim2SF 0) with (S754_zero false).
    destruct (Prim2SF ((b - a) * 1e6)) as [|[]| |[] m e]; try contradiction; reflexivity. }
  split; [exact Hrx|]. split; [exact Ht|]. split.
  - rewrite throughput_checked by assumption. f_equal. exact Ht.
  - rewrite fields_row_line. cbn [nth]. now rewrite Ht.
Qed.

Lemma C10_null_sink_witness :
  sink (Sample.no_sink Sample.two_flows) = None /\ (1 <? 10)%float = true /\
  throughput (scenario_result 5 1 10 (Sample.no_sink Sample.two_flows)) = 0%float.
Proof.
  split; [reflexivity|]. split; [reflexivity|].
  exact (proj1 (proj2
    (C10_null_sink (Sample.no_sink Sample.two_flows) 5 1 10 eq_refl eq_refl))).
Defined.

(* ================================================================= *)
(** ** Further properties of the code *)

Module MoreFacts.

(** *** Exact quotients *)

(** A quotient of two integers that is an integer is computed exactly. *)
Lemma SFdiv_int_exact t c :
  0 < t < 2 ^ 53 -> 0 <= c -> c * t < 2 ^ 53 ->
  SFdiv prec emax (int_sf (c * t)) (int_sf t) = int_sf c.
Proof.
  intros Ht Hc0 Hct.
  pose proof (small_digits _ Ht) as Hdt.
  destruct (canon_canonical _ Ht) as [Hpt _].
  rewrite (int_sf_pos t) by auto.
  destruct (Z.eq_dec c 0) as [->|Hcn]; [reflexivity|].
  assert (Hc : 0 < c < 2 ^ 53) by nia.
  assert (Ha : 0 < c * t < 2 ^ 53) by nia.
  pose proof (small_digits _ Hc) as Hdc. pose proof (small_digits _ Ha) as Hda.
  destruct (canon_canonical _ Hc) as [Hpc Hcc]. destruct (canon_canonical _ Ha) as [Hpa _].
  rewrite (int_sf_pos (c * t)), (int_sf_pos c) by auto.
  cbn [SFdiv xorb]. unfold SFdiv_core_binary.
  rewrite !Z2Pos.id by lia.
  assert (Hdma : Zdigits2 (canon_m (c * t)) = 53).
  { unfold canon_m. rewrite Zdigits2_shift by lia. lia. }
  assert (Hdmt : Zdigits2 (canon_m t) = 53).
  { unfold canon_m. rewrite Zdigits2_shift by lia. lia. }
  rewrite Hdma, Hdmt.
  set (a := c * t) in *.
  set (e' := Z.min _ _).
  assert (He' : e' = Zdigits2 a - Zdigits2 t - 53).
  { unfold e'. rewrite fexp_eq. unfold canon_e. lia. }
  replace (canon_e a - canon_e t - e') with 53 by (unfold canon_e; lia).
  rewrite Z.shiftl_mul_pow2 by lia.
  pose proof (Z_div_mod (canon_m a * 2 ^ 53) (canon_m t) ltac:(lia)) as Hdm.
  destruct (Z.div_eucl (canon_m a * 2 ^ 53) (canon_m t)) as [q r].
  destruct Hdm as [Hq Hr].
  assert (Hdact : Zdigits2 a <= Zdigits2 t + Zdigits2 c).
  { pose proof (Zdigits2_bounds t ltac:(lia)) as [_ Hut].
    pose proof (Zdigits2_bounds c ltac:(lia)) as [_ Huc].
    apply Zdigits2_small; [|lia]. rewrite Z.pow_add_r by lia. unfold a. nia. }
  set (Y := canon_m c * 2 ^ (canon_e c - e')).
  assert (HY : Y * canon_m t = c * t * (2 ^ (53 - Zdigits2 a) * 2 ^ 53)).
  { unfold Y, canon_m, canon_e. rewrite He'.
    replace (Zdigits2 c - 53 - (Zdigits2 a - Zdigits2 t - 53))
      with (Zdigits2 c + Zdigits2 t - Zdigits2 a) by lia.
    rewrite <- (Z.pow_add_r 2 (53 - Zdigits2 a)) by lia.
    replace (53 - Zdigits2 a + 53)
      with ((53 - Zdigits2 c) + (Zdigits2 c + Zdigits2 t - Zdigits2 a) + (53 - Zdigits2 t)) by lia.
    rewrite !Z.pow_add_r by lia. ring. }
  assert (HN : canon_m a * 2 ^ 53 = Y * canon_m t).
  { rewrite HY. unfold canon_m, a. ring. }
  destruct (div_exact_unique _ _ _ _ Y Hpt Hq Hr HN) as [-> ->].
  rewrite new_location_0, binary_round_aux_eq.
  destruct (bra_exact (canon_m c) (canon_e c) Y e') as [-> ->].
  - split; auto.
  - unfold canon_e. lia.
  - reflexivity.
  - now apply decode_canon.
Qed.


Lemma Prim2SF_int8 : Prim2SF 8 = int_sf 8.
Proof. reflexivity. Qed.

Lemma Prim2SF_int9e6 : Prim2SF ((10 - 1) * 1e6)%float = int_sf 9000000.
Proof. reflexivity. Qed.

(** *** A sum below [2^900] *)

Lemma ltb_exp_le x :
  sf_nonneg (Prim2SF x) -> (x <? 0x1p+900)%float = true -> sf_exp_le 848 (Prim2SF x).
Proof.
  rewrite FloatAxioms.ltb_spec.
  change (Prim2SF 0x1p+900) with (S754_finite false 4503599627370496 848).
  destruct (Prim2SF x) as [s|s| |s m e]; cbn [sf_nonneg sf_exp_le]; try tauto.
  - intros ->. discriminate.
  - intros ->. unfold SFltb, SFcompare.
    destruct (Z.compare_spec e 848); try discriminate; intros _; lia.
Qed.

Lemma avgDelay_number t :
  sf_nonneg (Prim2SF (sumDelaySec t)) -> (sumDelaySec t <? 0x1p+900)%float = true ->
  0 <= rxTotal t < 2 ^ 64 ->
  is_number (avgDelayMs t) = true.
Proof.
  intros Hs Hlt Hrx. unfold is_number, avgDelayMs.
  destruct (Z.ltb_spec 0 (rxTotal t)) as [Hpos|]; [|reflexivity].
  apply (is_number_exp_le 913).
  rewrite mul_spec, Prim2SF_1000. unfold SF64mul.
  apply (SFmul_exp_le _ _ 902 (-43)); try lia; try apply Prim2SF_valid.
  - reflexivity.
  - rewrite div_spec. unfold SF64div.
    rewrite (Prim2SF_double_of_uint64 (rxTotal t)).
    destruct (binary_normalize_exp (rxTotal t) ltac:(lia)) as (m & e & -> & He).
    apply (SFdiv_exp_le _ _ _ _ 848 (-52)); try lia; [apply Prim2SF_valid|].
    now apply ltb_exp_le.
  - simpl. lia.
Qed.

(** *** Texts *)

Lemma prefix_app s t : String.prefix s (s ++ t) = true.
Proof.
  induction s as [|c s IH]; simpl; [destruct t; reflexivity|].
  destruct (ascii_dec c c); [exact IH|congruence].
Qed.

Lemma cat_app l1 l2 : cat (l1 ++ l2) = (cat l1 ++ cat l2)%string.
Proof. induction l1 as [|x l1 IH]; simpl; [reflexivity|]. now rewrite IH, append_assoc. Qed.

Lemma results_app eng a b c n ds1 ds2 : forall i,
  results eng a b c n i (ds1 ++ ds2) =
  results eng a b c n i ds1 ++ results eng a b c n (i + List.length ds1) ds2.
Proof.
  induction ds1 as [|d ds1 IH]; intros i; simpl.
  - now rewrite Nat.add_0_r.
  - rewrite IH. now rewrite Nat.add_succ_r.
Qed.

Lemma scenarios_app eng a b c n ds1 ds2 : forall i f,
  scenarios eng a b c n i (ds1 ++ ds2) f =
  scenarios eng a b c n (i + List.length ds1) ds2 (scenarios eng a b c n i ds1 f).
Proof.
  induction ds1 as [|d ds1 IH]; intros i f; simpl.
  - now rewrite Nat.add_0_r.
  - rewrite IH. now rewrite Nat.add_succ_r.
Qed.

Lemma senders_from_spec a b n : forall i,
  List.length (senders_from a b i n) = n /\
  map station (senders_from a b i n) = map (fun k => i + Z.of_nat k) (seq 0 n) /\
  Forall (fun s => stopTime s = b /\ MaxBytes s = 0 /\ SendSize s = 1448 /\
                   startTime s = (a + 0x1.999999999999ap-4 * double_of_uint32 (station s))%float)
         (senders_from a b i n).
Proof.
  induction n as [|n IH]; intros i; simpl.
  - repeat split. constructor.
  - destruct (IH (i + 1)) as (Hl & Hs & Hf). repeat split.
    + now rewrite Hl.
    + rewrite Hs, Z.add_0_r. f_equal. rewrite <- seq_shift, map_map.
      apply map_ext. intros k. lia.
    + constructor; [repeat split|exact Hf].
Qed.

End MoreFacts.

Import MoreFacts.

(** X1. After the loop over the flow statistics each packet accumulator
    holds the sum of its counter modulo [2^64], whatever the counters are,
    and [sumDelaySec] the left-to-right [double] sum of the delays; a total
    of received (sent) packets that is a multiple of [2^64] is taken for no
    packet at all; and the loop over two maps in a row continues from the
    totals of the first. *)
Theorem X1_totals_wrap_around :
  forall m : list (FlowId * FlowStats),
    let t := flow_totals m in
    rxTotal t = total rxPackets m mod 2 ^ 64
    /\ txTotal t = total txPackets m mod 2 ^ 64
    /\ lostTotal t = total lostPackets m mod 2 ^ 64
    /\ sumDelaySec t = delay_sum m
    /\ (total rxPackets m mod 2 ^ 64 = 0 <-> (0 <? rxTotal t) = false)
    /\ ((0 <? rxTotal t) = false -> avgDelayMs t = 0%float)
    /\ ((0 <? txTotal t) = false -> lossPct t = 0%float)
    /\ (forall m2, flow_totals (m ++ m2) = fold_left accumulate m2 t).
Proof.
  intros m t. destruct (flow_totals_spec m) as (Hrx & Htx & Hl & Hd). fold t in Hrx, Htx, Hl, Hd.
  split; [exact Hrx|]. split; [exact Htx|]. split; [exact Hl|]. split; [exact Hd|].
  split; [|split; [|split]].
  - pose proof (wrap64_range (total rxPackets m)) as Hr. rewrite Hrx.
    change (wrap64 (total rxPackets m)) with (total rxPackets m mod 2 ^ 64) in *.
    destruct (Z.ltb_spec 0 (total rxPackets m mod 2 ^ 64)); split; intros; try lia; discriminate.
  - intros H. unfold avgDelayMs. now rewrite H.
  - intros H. unfold lossPct. now rewrite H.
  - intros m2. unfold t, flow_totals. apply fold_left_app.
Qed.

(** X2. With [appStart < appStop] none of the three divisions of a scenario
    has a zero for divisor, whatever the engine reports. *)
Theorem X2_never_divides_by_zero :
  forall (run : EngineRun) (appStart appStop : float),
    (appStart <? appStop)%float = true ->
    let t := flow_totals (stats run) in
    Checked.throughputMbps (totalRx_of (sink run)) appStart appStop
      = Some (throughputMbps (totalRx_of (sink run)) appStart appStop)
    /\ Checked.avgDelayMs t = Some (avgDelayMs t)
    /\ Checked.lossPct t = Some (lossPct t).
Proof.
  intros run a b Hab t.
  destruct (flow_totals_spec (stats run)) as (Hrx & Htx & _). fold t in Hrx, Htx.
  split; [now apply throughput_checked|]. split.
  - apply checked_avgDelayMs. rewrite Hrx. apply wrap64_range.
  - apply checked_lossPct. rewrite Htx. apply wrap64_range.
Qed.

Lemma X2_never_divides_by_zero_witness :
  (1 <? 10)%float = true /\
  Checked.lossPct (flow_totals Sample.lossy_flow) = Some (lossPct (flow_totals Sample.lossy_flow)).
Proof.
  split; [reflexivity|].
  exact (proj2 (proj2
    (X2_never_divides_by_zero (Sample.no_sink Sample.lossy_flow) 1 10 eq_refl))).
Defined.

(** X3. With the timing of [main], the throughput and the loss percentage of
    a row are numbers, never an infinity or a NaN, whatever the engine
    reports. *)
Theorem X3_throughput_and_loss_are_numbers :
  forall (run : EngineRun) (d : float),
    let r := scenario_result d 1 10 run in
    is_number (throughput r) = true /\ is_number (loss r) = true.
Proof.
  intros run d r.
  destruct (flow_totals_spec (stats run)) as (_ & Htx & Hl & _).
  unfold r, scenario_result. cbn [throughput loss]. split.
  - apply throughput_number. destruct (sink run); simpl; [apply wrap64_range|].
    split; [lia|reflexivity].
  - apply loss_number; rewrite ?Htx, ?Hl; apply wrap64_range.
Qed.

(** X4. For a distance of [main]'s list and delay sums that are not negative
    and add up to less than [2^900] seconds, the average delay is a number
    that is not negative, and each of the four fields of the row is a decimal
    numeral with exactly two fractional digits. *)
Theorem X4_row_fields_two_decimals :
  forall (Simulator_Run : nat -> Config -> EngineRun) (i : nat) (d : float),
    In d distances ->
    let run := Simulator_Run i (configure d 1 10 12 stations) in
    let r := scenario_row Simulator_Run 1 10 12 stations i d in
    Forall (fun kv => (0 <=? GetSeconds (delaySum (snd kv)))%float = true) (stats run) ->
    (delay_sum (stats run) <? 0x1p+900)%float = true ->
    is_number (avgDelay r) = true
    /\ (0 <=? avgDelay r)%float = true
    /\ Forall (fun field => two_decimals field = true) (fields (Csv.row_line r)).
Proof.
  intros eng i d Hd run r Hnn Hlt.
  destruct (flow_totals_spec (stats run)) as (Hrx & Htx & Hl & Hs).
  pose proof (delay_sum_nonneg _ Hnn) as Hsum.
  assert (Hnum : is_number (avgDelay r) = true).
  { unfold r, scenario_row, scenario_result. fold run. cbn [avgDelay].
    apply avgDelay_number; rewrite ?Hs, ?Hrx; auto. apply wrap64_range. }
  split; [exact Hnum|]. split.
  - unfold r, scenario_row, scenario_result. fold run. cbn [avgDelay].
    apply avgDelay_nonneg; rewrite ?Hs, ?Hrx; auto. apply wrap64_range.
  - rewrite fields_row_line.
    pose proof distances_numbers as Hn. rewrite Forall_forall in Hn.
    repeat constructor; apply fixed2_two_decimals.
    + now apply Hn.
    + apply throughput_number. fold run. destruct (sink run); simpl; [apply wrap64_range|].
      split; [lia|reflexivity].
    + exact Hnum.
    + apply loss_number; fold run; rewrite ?Htx, ?Hl; apply wrap64_range.
Qed.

Lemma X4_row_fields_two_decimals_witness :
  In 20%float distances /\
  (delay_sum Sample.three_flows <? 0x1p+900)%float = true /\
  is_number (avgDelay (scenario_result 20 1 10 (Sample.run_of 9000000 Sample.three_flows)))
  = true.
Proof.
  split; [simpl; tauto|]. split; [reflexivity|].
  refine (proj1 (X4_row_fields_two_decimals
            (Sample.engine (Sample.run_of 9000000 Sample.three_flows)) 0 20 _ _ _)).
  - simpl; tauto.
  - repeat constructor.
  - reflexivity.
Defined.

(** X5. With the timing of [main], a sink that received [k * 1,125,000]
    bytes gives a throughput of exactly [k] Mbit/s ([9,000,000 * k < 2^53]):
    no rounding error is left. *)
Theorem X5_throughput_exact_megabits :
  forall (run : EngineRun) (d : float) (p : PacketSink) (k : Z),
    sink run = Some p ->
    GetTotalRx p = 1125000 * k ->
    0 <= k ->
    9000000 * k < 2 ^ 53 ->
    throughput (scenario_result d 1 10 run) = double_of_uint64 k.
Proof.
  intros run d p k Hs Hrx Hk Hlt.
  unfold scenario_result. cbn [throughput]. rewrite Hs. cbn [totalRx_of]. rewrite Hrx.
  rewrite wrap64_small by (change (2 ^ 64) with (2 ^ 53 * 2048); lia).
  unfold throughputMbps. cbv zeta. apply Prim2SF_inj.
  rewrite div_spec, mul_spec, Prim2SF_int9e6, Prim2SF_int8.
  rewrite !double_of_uint64_int by lia.
  unfold SF64div, SF64mul. rewrite SFmul_int by lia.
  replace (1125000 * k * 8) with (k * 9000000) by lia.
  apply SFdiv_int_exact; lia.
Qed.

Lemma X5_throughput_exact_megabits_witness :
  9000000 * 54 < 2 ^ 53 /\
  throughput (scenario_result 5 1 10 (Sample.run_of 60750000 Sample.two_flows)) = 54%float.
Proof.
  split; [reflexivity|].
  exact (X5_throughput_exact_megabits (Sample.run_of 60750000 Sample.two_flows) 5
           {| GetTotalRx := 60750000 |} 54 eq_refl eq_refl
           ltac:(discriminate) eq_refl).
Defined.

(** X6. When the packets lost are exactly [p] percent of the packets sent
    (counters not negative, [100 * lost < 2^53]), the loss percentage is the
    [double] [p] itself: nothing lost gives [0], everything lost [100]. *)
Theorem X6_loss_exact_percent :
  forall (m : list (FlowId * FlowStats)) (p : Z),
    Forall (fun kv => 0 <= txPackets (snd kv) /\ 0 <= lostPackets (snd kv)) m ->
    0 < total txPackets m < 2 ^ 53 ->
    100 * total lostPackets m = p * total txPackets m ->
    100 * total lostPackets m < 2 ^ 53 ->
    lossPct (flow_totals m) = double_of_uint64 p.
Proof.
  intros m p Hnn Htx Hp Hlt.
  destruct (flow_totals_spec m) as (_ & Ht & Hl & _).
  assert (Hnl : 0 <= total lostPackets m).
  { apply total_nonneg. eapply Forall_impl; [|exact Hnn]. simpl. tauto. }
  assert (H64 : 2 ^ 53 < 2 ^ 64) by reflexivity.
  rewrite wrap64_small in Ht, Hl by lia.
  assert (Hp0 : 0 <= p) by nia.
  assert (Hp53 : p < 2 ^ 53) by nia.
  unfold lossPct. rewrite Ht, Hl.
  destruct (Z.ltb_spec 0 (total txPackets m)); [|lia].
  apply Prim2SF_inj. rewrite div_spec, mul_spec, Prim2SF_100.
  rewrite !double_of_uint64_int by lia.
  unfold SF64div, SF64mul. rewrite SFmul_int by lia. rewrite Hp.
  apply SFdiv_int_exact; lia.
Qed.

Lemma X6_loss_exact_percent_witness :
  0 < total txPackets [(1, Sample.flow 0 0 8 8)] < 2 ^ 53 /\
  lossPct (flow_totals [(1, Sample.flow 0 0 8 8)]) = 100%float.
Proof.
  split; [split; reflexivity|].
  refine (X6_loss_exact_percent [(1, Sample.flow 0 0 8 8)] 100 _ _ eq_refl eq_refl).
  - repeat constructor; simpl; lia.
  - split; reflexivity.
Defined.

(** X7. The sender loop installs one bulk sender per station, for stations
    [0 .. n-1] in this order; every sender is unlimited ([MaxBytes = 0]),
    sends 1448-byte segments, stops at [appStop], and starts at
    [appStart + 0.1 * i] for its station [i]. *)
Theorem X7_one_sender_per_station :
  forall (appStart appStop : float) (n : nat),
    let plan := senders appStart appStop n in
    List.length plan = n
    /\ map station plan = map Z.of_nat (seq 0 n)
    /\ Forall (fun s => stopTime s = appStop /\ MaxBytes s = 0 /\ SendSize s = 1448 /\
                 startTime s
                 = (appStart + 0x1.999999999999ap-4 * double_of_uint32 (station s))%float)
              plan.
Proof.
  intros a b n plan. destruct (senders_from_spec a b n 0) as (Hl & Hs & Hf).
  split; [exact Hl|]. split; [|exact Hf].
  unfold plan, senders. rewrite Hs. apply map_ext. intros k. lia.
Qed.

(** X8. Whatever the engine reports and whatever the file holds, [main]
    returns [0] and leaves the file with what it held (or the header, if it
    was absent) followed by five rows, whose first fields are [5.00],
    [10.00], [20.00], [35.00], [50.00]; what the file held stays at its
    start, unchanged. *)
Theorem X8_main_appends_five_rows :
  forall (Simulator_Run : nat -> Config -> EngineRun) (f : Csv.File),
    let rs := results Simulator_Run 1 10 12 stations 0 distances in
    let f' := fst (main Simulator_Run f) in
    snd (main Simulator_Run f) = 0
    /\ Csv.text f' = (Csv.text (WriteCsvHeaderIfNeeded f) ++ cat (map Csv.row rs))%string
    /\ lines (cat (map Csv.row rs)) = map Csv.row_line rs
    /\ map (fun r => hd ""%string (fields (Csv.row_line r))) rs
       = ["5.00"; "10.00"; "20.00"; "35.00"; "50.00"]%string
    /\ String.prefix (Csv.text f) (Csv.text f') = true.
Proof.
  intros eng f rs f'.
  assert (Ht : Csv.text f' =
               (Csv.text (WriteCsvHeaderIfNeeded f) ++ cat (map Csv.row rs))%string).
  { unfold f', main, campaign. cbn [fst]. apply scenarios_text. }
  split; [reflexivity|]. split; [exact Ht|]. split; [apply lines_rows|]. split.
  - transitivity (map Fmt.fixed2 (map distance rs)).
    + rewrite map_map. apply map_ext. intros r. now rewrite fields_row_line.
    + unfold rs. rewrite results_distance. reflexivity.
  - rewrite Ht. destruct f as [old|]; [apply prefix_app|reflexivity].
Qed.

(** X9. In the file a campaign leaves where there was none, every line,
    the header included, has exactly four fields, whatever the engine
    reports (infinities and NaN included). *)
Theorem X9_four_fields_per_line :
  forall (Simulator_Run : nat -> Config -> EngineRun)
         (appStart appStop simStop : float) (stationCount : nat) (ds : list float),
    Forall (fun l => List.length (fields l) = 4%nat)
      (lines (Csv.text
                (campaign Simulator_Run appStart appStop simStop stationCount ds None))).
Proof.
  intros eng a b c n ds. unfold campaign. rewrite scenarios_text.
  change (Csv.text (WriteCsvHeaderIfNeeded None)) with Csv.header.
  rewrite lines_header_rows. constructor; [reflexivity|].
  apply Forall_forall. intros l Hin. apply in_map_iff in Hin as (r & <- & _).
  now rewrite fields_row_line.
Qed.

(** X10. Rows are only ever appended: running the scenarios of a list is
    running those of its first part and then those of the rest, and the
    file after the first part is the beginning of the file after all. *)
Theorem X10_rows_written_are_kept :
  forall (Simulator_Run : nat -> Config -> EngineRun)
         (appStart appStop simStop : float) (stationCount : nat)
         (i : nat) (ds1 ds2 : list float) (f : Csv.File),
    let run := scenarios Simulator_Run appStart appStop simStop stationCount in
    run i (ds1 ++ ds2) f = run (i + List.length ds1)%nat ds2 (run i ds1 f)
    /\ String.prefix (Csv.text (run i ds1 f)) (Csv.text (run i (ds1 ++ ds2) f)) = true.
Proof.
  intros eng a b c n i ds1 ds2 f run. unfold run.
  split; [apply scenarios_app|].
  rewrite scenarios_app, (scenarios_text eng a b c n ds2). apply prefix_app.
Qed.

(** X11. A file that already exists never gets the header, even when it is
    empty: after a campaign on an existing empty file the lines are the
    rows alone. *)
Theorem X11_existing_file_gets_no_header :
  forall (Simulator_Run : nat -> Config -> EngineRun)
         (appStart appStop simStop : float) (stationCount : nat)
         (ds : list float) (old : string),
    let rs := results Simulator_Run appStart appStop simStop stationCount 0 ds in
    let after t := Csv.text (campaign Simulator_Run appStart appStop simStop stationCount
                               ds (Some t)) in
    after old = (old ++ cat (map Csv.row rs))%string
    /\ lines (after ""%string) = map Csv.row_line rs
    /\ count_occ string_dec (lines (after ""%string)) Csv.header_line = 0%nat.
Proof.
  intros eng a b c n ds old rs after.
  assert (H : forall t, after t = (t ++ cat (map Csv.row rs))%string).
  { intros t. unfold after, campaign. now rewrite scenarios_text. }
  split; [apply H|]. rewrite H. cbn [append]. rewrite lines_rows. split; [reflexivity|].
  apply count_occ_not_In. intros Hin.
  apply in_map_iff in Hin as (r & Hr & _). now apply row_line_not_header in Hr.
Qed.
